(** * SCTP-DSAI lesson management: catalog, preservation matcher, sync engine

    A shallow embedding of
    - [src/dsai_management.py]: the data model ([Lesson], [LessonMetadata]
      with [load]/[save]) and [LessonManager] ([sync_lesson],
      [sync_all_lessons], [check_custom_changes]);
    - the shell script [scripts/sync-lesson.sh] that
      [create_sync_script] of [src/setup_sctp_dsai.py] writes to disk and
      that [LessonManager.sync_lesson] runs through [CommandRunner].

    Modelling conventions.
    - The working tree is a finite map from paths (lists of names,
      relative to the current directory) to nodes (a regular file with
      its content, or a directory).  Symbolic links, permissions and
      I/O failures of the storage itself are not modelled.
    - [json.dump] followed by [json.load] is taken to be the identity on
      the values the program writes, so the catalog file holds a JSON
      value rather than its text.
    - The glob matcher on names ([fnmatch] of Python, [-name] of find) is
      an interface; every general theorem holds for any matcher. *)

From stdpp Require Import gmap strings list fin_maps.
From Stdlib Require Import Ascii.

(* ===================================================================== *)
(** * Text helpers (str methods of Python, line tools of the script)      *)
(* ===================================================================== *)

Module Text.

Definition slash : ascii := "/"%char.
Definition newline : ascii := "010"%char.
Definition star : ascii := "*"%char.

Definition ascii_eqb (a b : ascii) : bool := bool_decide (a = b).

(** [s.endswith(c)] for a one-character suffix. *)
Fixpoint ends_with (c : ascii) (s : string) : bool :=
  match s with
  | EmptyString => false
  | String a EmptyString => ascii_eqb a c
  | String _ r => ends_with c r
  end.

(** [s.rstrip(c)]: every trailing [c] is removed. *)
Fixpoint rstrip (c : ascii) (s : string) : string :=
  match s with
  | EmptyString => EmptyString
  | String a r =>
      match rstrip c r with
      | EmptyString => if ascii_eqb a c then EmptyString else String a EmptyString
      | r' => String a r'
      end
  end.

(** [s.split(c)]: the pieces between the occurrences of [c]. *)
Fixpoint split_on (c : ascii) (s : string) : list string :=
  match s with
  | EmptyString => [EmptyString]
  | String a r =>
      if ascii_eqb a c then EmptyString :: split_on c r
      else match split_on c r with
           | h :: t => String a h :: t
           | [] => [String a EmptyString]
           end
  end.

(** [sep.join(parts)]. *)
Definition join (sep : string) (parts : list string) : string :=
  String.concat sep parts.

(** [needle in s]. *)
Fixpoint contains (needle s : string) : bool :=
  String.prefix needle s ||
  match s with
  | EmptyString => false
  | String _ r => contains needle r
  end.

Fixpoint drop_chars (n : nat) (s : string) : string :=
  match n, s with
  | O, _ => s
  | S k, String _ r => drop_chars k r
  | S _, EmptyString => EmptyString
  end.

(** The text after the last occurrence of [sep] in [s], if there is one. *)
Fixpoint after_last (sep s : string) : option string :=
  match s with
  | EmptyString => None
  | String _ r =>
      match after_last sep r with
      | Some t => Some t
      | None =>
          if String.prefix sep s then Some (drop_chars (String.length sep) s)
          else None
      end
  end.

(** sed [s/.*: //] on one line: the greedy [.*] runs to the last
    colon-space, and the line is unchanged when there is none. *)
Definition sed_strip_label (line : string) : string :=
  from_option id line (after_last ": " line).

(** sed [s/\*\*//g] on one line: every pair of stars goes, left to right. *)
Fixpoint sed_drop_stars (line : string) : string :=
  match line with
  | String a (String b r as r1) =>
      if ascii_eqb a star && ascii_eqb b star then sed_drop_stars r
      else String a (sed_drop_stars r1)
  | other => other
  end.

(** sed [s/KEY.*/REPL/] on one line: from the first [key] to the end of
    the line. *)
Fixpoint sed_replace_from (key repl line : string) : string :=
  if String.prefix key line then repl
  else match line with
       | EmptyString => EmptyString
       | String a r => String a (sed_replace_from key repl r)
       end.

(** [s.replace(a, b)] for one-character arguments. *)
Fixpoint replace_char (a b : ascii) (s : string) : string :=
  match s with
  | EmptyString => EmptyString
  | String c r => String (if ascii_eqb c a then b else c) (replace_char a b r)
  end.

Definition lines (text : string) : list string := split_on newline text.
Definition unlines (ls : list string) : string :=
  join (String newline EmptyString) ls.

End Text.


(* ===================================================================== *)
(** * Data model ([Lesson], [LessonMetadata]) and its JSON form           *)
(* ===================================================================== *)

(** The value [json.load] returns: [None], [bool], a number (kept as its
    literal), [str], [list], and [dict] as an association list in insertion
    order whose keys are distinct. *)
#[warnings="-register-all"]
Inductive json : Type :=
  | JNull
  | JBool (b : bool)
  | JNumber (literal : string)
  | JString (s : string)
  | JArray (items : list json)
  | JObject (members : list (string * json)).

(** [@dataclass class Lesson]. *)
Record Lesson : Type := mkLesson {
  folder : string;
  name : string;
  number : string;
  source_repo : string;
  added_date : string;
  last_synced : string;
  description : string;
  module : string;
  has_custom_changes : bool
}.

(** [@dataclass class LessonMetadata]. *)
Record LessonMetadata : Type := mkLessonMetadata {
  lessons : list Lesson;
  last_updated : string;
  version : string;
  preservation_patterns : list string
}.

Global Instance Lesson_eq_dec : EqDecision Lesson.
Proof. solve_decision. Defined.

Global Instance LessonMetadata_eq_dec : EqDecision LessonMetadata.
Proof. solve_decision. Defined.

(** [lesson.last_synced = today]: the attribute assignment. *)
Definition set_last_synced (today : string) (l : Lesson) : Lesson :=
  mkLesson (folder l) (name l) (number l) (source_repo l) (added_date l)
           today (description l) (module l) (has_custom_changes l).

(** What [lessons-metadata.json] holds: nothing (no such file), text that
    is not JSON, or a JSON value. *)
Inductive catalog_file : Type :=
  | NoFile
  | NotJson
  | Parsed (data : json).

(** The exceptions [LessonMetadata.load] lets through.  [IllTyped] is not a
    Python exception: Python builds the object whatever the JSON types are,
    and the records above have no inhabitant for a field of another type. *)
Inductive load_error : Type :=
  | JSONDecodeError
  | AttributeError
  | TypeError
  | IllTyped.

Module Load.

(** A small error monad for the loader. *)
Definition M (A : Type) : Type := load_error + A.
Definition ret {A} (a : A) : M A := inr a.
Definition raise {A} (e : load_error) : M A := inl e.
Definition bind {A B} (m : M A) (k : A → M B) : M B :=
  match m with
  | inl e => inl e
  | inr a => k a
  end.

Global Instance M_ret : MRet M := @ret.
Global Instance M_bind : MBind M := λ A B k m, bind m k.

Fixpoint mapM {A B} (f : A → M B) (l : list A) : M (list B) :=
  match l with
  | [] => ret []
  | a :: r => b ← f a; bs ← mapM f r; ret (b :: bs)
  end.

(** [d.get(key)] on the members of a dict. *)
Fixpoint lookup_member (key : string) (members : list (string * json)) : option json :=
  match members with
  | [] => None
  | (k, v) :: r => if String.eqb k key then Some v else lookup_member key r
  end.

(** [data.get(key, default)]: only a dict has [get]. *)
Definition get (data : json) (key : string) (default : json) : M json :=
  match data with
  | JObject members => ret (from_option id default (lookup_member key members))
  | _ => raise AttributeError
  end.

(** [for x in v]: a list gives its items, a dict its keys, a string its
    characters; nothing else is iterable. *)
Definition iterate (v : json) : M (list json) :=
  match v with
  | JArray items => ret items
  | JObject members => ret (map (λ kv, JString kv.1) members)
  | JString s => ret (map (λ c, JString (String c EmptyString)) (String.list_ascii_of_string s))
  | _ => raise TypeError
  end.

Definition as_str (v : json) : M string :=
  match v with
  | JString s => ret s
  | _ => raise IllTyped
  end.

Definition as_bool (v : json) : M bool :=
  match v with
  | JBool b => ret b
  | _ => raise IllTyped
  end.

Definition as_str_list (v : json) : M (list string) :=
  match v with
  | JArray items => mapM as_str items
  | _ => raise IllTyped
  end.

End Load.

(** The dataclass fields of [Lesson], in declaration order. *)
Definition Lesson_fields : list string :=
  ["folder"; "name"; "number"; "source_repo"; "added_date"; "last_synced";
   "description"; "module"; "has_custom_changes"].

(** [vars(lesson)]. *)
Definition vars (l : Lesson) : json :=
  JObject [("folder", JString (folder l));
           ("name", JString (name l));
           ("number", JString (number l));
           ("source_repo", JString (source_repo l));
           ("added_date", JString (added_date l));
           ("last_synced", JString (last_synced l));
           ("description", JString (description l));
           ("module", JString (module l));
           ("has_custom_changes", JBool (has_custom_changes l))].

(** [Lesson] called with the dict [lesson_data] unpacked as keyword
    arguments: the argument must be a mapping, an unexpected keyword is a
    [TypeError], a missing field is a [TypeError]. *)
Definition Lesson_of_kwargs (lesson_data : json) : Load.M Lesson :=
  match lesson_data with
  | JObject members =>
      if negb (forallb (λ kv, existsb (String.eqb kv.1) Lesson_fields) members)
      then Load.raise TypeError
      else
        let field key :=
          match Load.lookup_member key members with
          | Some v => Load.ret v
          | None => Load.raise TypeError
          end in
        v1 ← field "folder"; v2 ← field "name"; v3 ← field "number";
        v4 ← field "source_repo"; v5 ← field "added_date";
        v6 ← field "last_synced"; v7 ← field "description";
        v8 ← field "module"; v9 ← field "has_custom_changes";
        s1 ← Load.as_str v1; s2 ← Load.as_str v2; s3 ← Load.as_str v3;
        s4 ← Load.as_str v4; s5 ← Load.as_str v5; s6 ← Load.as_str v6;
        s7 ← Load.as_str v7; s8 ← Load.as_str v8; b9 ← Load.as_bool v9;
        Load.ret (mkLesson s1 s2 s3 s4 s5 s6 s7 s8 b9)
  | _ => Load.raise TypeError
  end.

(** The catalog [load] returns when there is no file. *)
Definition default_metadata : LessonMetadata :=
  mkLessonMetadata [] "" "1.0.0" [].

(** [LessonMetadata.load]. *)
Definition load (file : catalog_file) : Load.M LessonMetadata :=
  match file with
  | NoFile => Load.ret default_metadata
  | NotJson => Load.raise JSONDecodeError
  | Parsed data =>
      raw_lessons ← Load.get data "lessons" (JArray []);
      items ← Load.iterate raw_lessons;
      ls ← Load.mapM Lesson_of_kwargs items;
      raw_updated ← Load.get data "last_updated" (JString "");
      raw_version ← Load.get data "version" (JString "1.0.0");
      raw_patterns ← Load.get data "preservation_patterns" (JArray []);
      updated ← Load.as_str raw_updated;
      ver ← Load.as_str raw_version;
      pats ← Load.as_str_list raw_patterns;
      Load.ret (mkLessonMetadata ls updated ver pats)
  end.

(** The [data] dict that [LessonMetadata.save] dumps. *)
Definition to_json (m : LessonMetadata) : json :=
  JObject [("lessons", JArray (map vars (lessons m)));
           ("last_updated", JString (last_updated m));
           ("version", JString (version m));
           ("preservation_patterns", JArray (map JString (preservation_patterns m)))].

(** [LessonMetadata.save]: the file is rewritten in full. *)
Definition save (m : LessonMetadata) : catalog_file := Parsed (to_json m).

(* ===================================================================== *)
(** * The working tree                                                    *)
(* ===================================================================== *)

(** A directory entry: a regular file with its content, or a directory. *)
Inductive node : Type :=
  | File (content : string)
  | Dir.

Global Instance node_eq_dec : EqDecision node.
Proof. solve_decision. Defined.

(** Paths are lists of names, relative to the current directory; the
    current directory itself is the empty path. *)
Abbreviation path := (list string).
Abbreviation tree := (gmap (list string) node).

(** The glob matcher on one name: [fnmatch name pattern].  Python's
    [fnmatch] behind [Path.rglob] and the [-name] test of find are
    instances; a pattern without wildcard characters matches the one
    name equal to it, which is also how [rglob] treats such a
    component. *)
Class NameMatcher := fnmatch : string → string → bool.

(** A concrete matcher for the glob syntax without bracket expressions and
    escapes: a star is any run of characters, a question mark any one
    character, every other character is itself.  On such patterns it is
    what [fnmatch] computes. *)
Fixpoint glob (pattern : string) : string → bool :=
  match pattern with
  | EmptyString => λ s, bool_decide (s = EmptyString)
  | String c rest =>
      if Text.ascii_eqb c Text.star then
        fix any (s : string) : bool :=
          glob rest s || match s with
                         | EmptyString => false
                         | String _ s' => any s'
                         end
      else if Text.ascii_eqb c "?"%char then
        λ s, match s with
             | EmptyString => false
             | String _ s' => glob rest s'
             end
      else
        λ s, match s with
             | EmptyString => false
             | String a s' => Text.ascii_eqb a c && glob rest s'
             end
  end.

Definition glob_match : NameMatcher := λ name pattern, glob pattern name.

Module Fs.

Definition is_dir (t : tree) (p : path) : bool :=
  match t !! p with
  | Some Dir => true
  | _ => false
  end.

Definition is_file (t : tree) (p : path) : bool :=
  match t !! p with
  | Some (File _) => true
  | _ => false
  end.

(** The last name of a path. *)
Definition basename (p : path) : string := default EmptyString (last p).

(** [p.relative_to(root)] for [p] below [root]. *)
Definition relative_to (root p : path) : path := drop (length root) p.

(** [str(p)]. *)
Definition path_str (p : path) : string := Text.join "/" p.

(** A path and its ancestors, the empty path included. *)
Fixpoint ancestors (p : path) : list path :=
  match p with
  | [] => [[]]
  | a :: r => [] :: map (cons a) (ancestors r)
  end.

(** The tree below [root], keyed by the paths relative to [root];
    [root] itself is left out. *)
Definition subtree (root : path) (t : tree) : tree :=
  map_fold (λ p n acc,
              if decide (root `prefix_of` p ∧ p ≠ root)
              then <[relative_to root p := n]> acc else acc) ∅ t.

(** [mkdir -p p]: [None] when a file is in the way. *)
Definition mkdir_p (p : path) (t : tree) : option tree :=
  if existsb (is_file t) (ancestors p) then None
  else Some (foldr (λ d acc, match d with
                             | [] => acc
                             | _ => <[d := Dir]> acc
                             end) t (ancestors p)).

(** [rm -rf p]. *)
Definition rm_rf (p : path) (t : tree) : tree :=
  filter (λ e, ¬ p `prefix_of` e.1) t.

(** cp refuses to put a file where a directory is and a directory where
    a file is. *)
Definition kind_clash (a b : node) : bool :=
  match a, b with
  | Dir, File _ | File _, Dir => true
  | _, _ => false
  end.

Definition clashes (dst : path) (src t : tree) (r : path) : bool :=
  match src !! r, t !! (dst ++ r) with
  | Some a, Some b => kind_clash a b
  | _, _ => false
  end.

(** An entry is not copied when it or a directory above it clashes. *)
Definition blocked (dst : path) (src t : tree) (r : path) : bool :=
  existsb (clashes dst src t) (ancestors r).

(** [cp -r] of the entries [src] (keyed relative to the destination
    directory [dst]) into [dst]: directories merge, files are
    overwritten, a clash is reported (exit status) and skipped with all
    that lies below it. *)
Definition copy_into (dst : path) (src t : tree) : tree * bool :=
  (kmap (app dst) (filter (λ e, ¬ blocked dst src t e.1) src) ∪ t,
   bool_decide (map_Forall (λ r _, ¬ clashes dst src t r) src)).

End Fs.

(* ===================================================================== *)
(** * Preservation matcher: [LessonManager.check_custom_changes]          *)
(* ===================================================================== *)

(** [lesson.path]: [Path("lessons") / folder]; the folder is one name. *)
Definition Lesson_path (l : Lesson) : path := ["lessons"; folder l].

(** [lesson.exists()]. *)
Definition Lesson_exists (t : tree) (l : Lesson) : bool :=
  bool_decide (is_Some (t !! Lesson_path l)) && Fs.is_dir t (Lesson_path l).

Module Glob.

(** A component [Path.rglob] takes as one name glob.  The empty
    component (empty pattern, leading or doubled separator), the
    components [.] and [..] and a component with two stars in a row are
    left out: Python raises on some of them and answers differently
    from version to version on others. *)
Definition plain_part (part : string) : bool :=
  negb (bool_decide (part = EmptyString))
  && negb (bool_decide (part = "."))
  && negb (bool_decide (part = ".."))
  && negb (Text.contains "**" part).

(** The components of a pattern; [None] outside the fragment above. *)
Definition parse_pattern (pattern : string) : option (list string) :=
  let parts := Text.split_on Text.slash pattern in
  if forallb plain_part parts then Some parts else None.

Section Matcher.
Context `{NameMatcher}.

(** The names match the components one for one. *)
Fixpoint names_match (names parts : list string) : bool :=
  match names, parts with
  | [], [] => true
  | n :: ns, p :: ps => fnmatch n p && names_match ns ps
  | _, _ => false
  end.

(** The selector of [rglob]: any directories first (the implicit
    leading double star), then one name for each component. *)
Definition selects (parts : list string) (rel : path) : bool :=
  names_match (drop (length rel - length parts) rel) parts.

(** [root.rglob(pattern)]: the entries below [root] (never [root]
    itself) that the selector accepts.  The order of the result is
    that of the directory scan, here the order of the map. *)
Definition rglob (t : tree) (root : path) (pattern : string) : option (list path) :=
  parts ← parse_pattern pattern;
  Some (fst <$> map_to_list
    (filter (λ e, root `prefix_of` e.1 ∧
                  selects parts (Fs.relative_to root e.1) = true) t)).

End Matcher.

End Glob.

Section Matcher.
Context `{NameMatcher}.

(** The body of the [for pattern in patterns] loop: what one pattern
    appends to [custom_files]. *)
Definition custom_files_of (t : tree) (root : path) (pattern : string)
  : option (list string) :=
  if Text.ends_with Text.slash pattern then
    (* Directory pattern *)
    let pattern := Text.rstrip Text.slash pattern in
    match Glob.rglob t root pattern with
    | Some items =>
        Some ((λ item, Fs.path_str (Fs.relative_to root item)) <$>
                filter (λ item, Fs.is_dir t item = true) items)
    | None => None
    end
  else
    (* File pattern *)
    match Glob.rglob t root (Text.replace_char Text.star Text.star pattern) with
    | Some items =>
        Some ((λ item, Fs.path_str (Fs.relative_to root item)) <$>
                filter (λ item, Fs.is_file t item = true) items)
    | None => None
    end.

Fixpoint custom_files_loop (t : tree) (root : path) (patterns : list string)
  : option (list string) :=
  match patterns with
  | [] => Some []
  | pattern :: rest =>
      found ← custom_files_of t root pattern;
      more ← custom_files_loop t root rest;
      Some (found ++ more)
  end.

(** [LessonManager.check_custom_changes].  [None] stands for a pattern
    outside the fragment of [Glob.parse_pattern]. *)
Definition check_custom_changes (m : LessonMetadata) (t : tree) (lesson : Lesson)
  : option (list string) :=
  if negb (Lesson_exists t lesson) then Some []
  else custom_files_loop t (Lesson_path lesson) (preservation_patterns m).

End Matcher.

(* ===================================================================== *)
(** * The sync script [scripts/sync-lesson.sh]                            *)
(* ===================================================================== *)

(** What the outside world answers during one run. *)
Record Env : Type := mkEnv {
  (** [git clone --depth 1 url dir]: the files of the clone, relative to
      [dir], or [None] when the clone fails (network error, unknown
      repository, timeout). *)
  remote : string → option (gmap (list string) node);
  (** [date +%Y%m%d-%H%M%S] *)
  stamp : string;
  (** [date -u +%Y-%m-%d] *)
  utc_date : string;
  (** [datetime.now().strftime("%Y-%m-%d")] *)
  today : string
}.

Module SyncScript.

Definition PRESERVE_PATTERNS : list string :=
  ["*.local.*"; "*-custom.*"; "*-notes.*"; "my-*"; "custom-*";
   ".custom-changes"; "LESSON_INFO.md"].

(** [grep "Source Repository" file | sed 's/.*: //' | sed 's/\*\*//g'],
    captured by a command substitution (trailing newlines are dropped).
    A missing file or a directory gives no output; the status of the
    pipeline is that of the last sed, so the script goes on. *)
Definition discover_source (info : option node) : string :=
  match info with
  | Some (File text) =>
      Text.rstrip Text.newline
        (Text.unlines
           (map (λ line, Text.sed_drop_stars (Text.sed_strip_label line))
                (filter (λ line, Text.contains "Source Repository" line = true)
                        (Text.lines text))))
  | _ => EmptyString
  end.

(** The two sed calls on [LESSON_INFO.md] and [rm -f] of the [.bak]
    file sed leaves behind.  [None] is the one way this can stop the
    script: [rm -f] on a directory fails, and the script runs under
    [set -e]. *)
Definition update_sync_date (E : Env) (LESSON_PATH : path) (t : tree) : option tree :=
  let info := LESSON_PATH ++ ["LESSON_INFO.md"] in
  let bak := LESSON_PATH ++ ["LESSON_INFO.md.bak"] in
  if Fs.is_dir t bak then None
  else
    Some (delete bak
      match t !! info with
      | Some (File text) =>
          <[info := File (Text.unlines
               (map (Text.sed_replace_from "Last Synced"
                       ("Last Synced**: " +:+ utc_date E))
                    (Text.lines text)))]> t
      | _ => t
      end).

(** A name the shell glob [*] expands to: not a dot file. *)
Definition visible (r : path) : bool :=
  match r with
  | n :: _ => negb (String.prefix "." n)
  | [] => false
  end.

(** [cp -r "$BACKUP_DIR"/* "$LESSON_PATH/" 2>/dev/null || true] *)
Definition restore (BACKUP_DIR LESSON_PATH : path) (t : tree) : tree :=
  (Fs.copy_into LESSON_PATH
     (filter (λ e, visible e.1 = true) (Fs.subtree BACKUP_DIR t)) t).1.

Section Script.
Context `{NameMatcher}.

(** [find root -name pattern]: [root] and everything below it, by the
    last name.  The listing is taken on the tree as it is when find
    starts. *)
Definition find_name (t : tree) (root : path) (pattern : string) : list path :=
  fst <$> map_to_list
    (filter (λ e, root `prefix_of` e.1 ∧
                  fnmatch (Fs.basename e.1) pattern = true) t).

(** [cp -r --parents src "$BACKUP_DIR/"]: the full name of the source
    is appended to the backup directory, the missing directories in
    between are made, and cp does not descend into the directory it
    is writing (copying a directory into itself is refused).  Errors
    are discarded by the script. *)
Definition cp_parents (backup src : path) (t : tree) : tree :=
  let dest := backup ++ src in
  let parents : tree :=
    list_to_map (map (λ d, (d, Dir))
      (filter (λ d, d ≠ [] ∧ d ≠ src) (Fs.ancestors src))) in
  let body : tree :=
    filter (λ e, src `prefix_of` e.1 ∧ ¬ dest `prefix_of` e.1) t in
  (Fs.copy_into backup (body ∪ parents) t).1.

(** One round of the backup loop: find with [-exec cp ... \;]. *)
Definition backup_pattern (LESSON_PATH BACKUP_DIR : path)
    (t : tree) (pattern : string) : tree :=
  foldl (λ acc src, cp_parents BACKUP_DIR src acc) t
        (find_name t LESSON_PATH pattern).

(** [for pattern in "${PRESERVE_PATTERNS[@]}"] *)
Definition backup_custom_files (LESSON_PATH BACKUP_DIR : path) (t : tree) : tree :=
  foldl (backup_pattern LESSON_PATH BACKUP_DIR) t PRESERVE_PATTERNS.

(** An entry directly under the lesson directory that
    [-not -name ".custom-changes" -not -name "LESSON_INFO.md"] lets
    through to [rm -rf]. *)
Definition doomed (LESSON_PATH p : path) : bool :=
  bool_decide (LESSON_PATH `prefix_of` p) &&
  match Fs.relative_to LESSON_PATH p with
  | n :: _ => negb (fnmatch n ".custom-changes") && negb (fnmatch n "LESSON_INFO.md")
  | [] => false
  end.

(** [find "$LESSON_PATH" -mindepth 1 -maxdepth 1 ... -exec rm -rf {} +] *)
Definition remove_old_content (LESSON_PATH : path) (t : tree) : tree :=
  filter (λ e, doomed LESSON_PATH e.1 = false) t.

(** The function [sync_single_lesson] of the script: the tree it
    leaves and whether it returns 0. *)
Definition sync_single_lesson (E : Env) (LESSON_FOLDER : string) (t : tree)
  : tree * bool :=
  let LESSON_PATH := ["lessons"; LESSON_FOLDER] in
  if negb (Fs.is_dir t LESSON_PATH) then (t, false)
  else
    let SOURCE_REPO := discover_source (t !! (LESSON_PATH ++ ["LESSON_INFO.md"])) in
    if bool_decide (SOURCE_REPO = EmptyString) then (t, false)
    else
      (* Backup custom files *)
      let BACKUP_DIR :=
        LESSON_PATH ++ [".custom-changes"; "backup-" +:+ stamp E] in
      match Fs.mkdir_p BACKUP_DIR t with
      | None => (t, false)
      | Some t1 =>
          let t2 := backup_custom_files LESSON_PATH BACKUP_DIR t1 in
          (* Clone fresh copy: the status of git is lost in the
             pipeline through grep and the true that follows, and a
             failed clone leaves the temporary directory empty *)
          let TEMP_DIR := Fs.rm_rf [".git"] (default ∅ (remote E SOURCE_REPO)) in
          (* Remove old content *)
          let t3 := remove_old_content LESSON_PATH t2 in
          (* Copy new content *)
          let '(t4, copied) := Fs.copy_into LESSON_PATH TEMP_DIR t3 in
          if negb copied then (t4, false)
          else
            (* Restore custom files *)
            let t5 := if Fs.is_dir t4 BACKUP_DIR
                      then restore BACKUP_DIR LESSON_PATH t4 else t4 in
            (* Update sync date *)
            match update_sync_date E LESSON_PATH t5 with
            | None => (t5, false)
            | Some t6 => (t6, true)
            end
      end.

End Script.

End SyncScript.

(* ===================================================================== *)
(** * [CommandRunner] and [LessonManager]                                 *)
(* ===================================================================== *)

(** The second component of the pairs [sync_lesson] returns: a message the
    manager builds itself, or the captured output of the script (its
    text is not modelled). *)
Inductive diagnostic : Type :=
  | Message (text : string)
  | Stdout
  | Stderr.

(** The state a manager works on: the working tree, the catalog file
    [lessons-metadata.json], and [self.metadata]. *)
Record World : Type := mkWorld {
  w_tree : gmap (list string) node;
  w_catalog : catalog_file;
  w_metadata : LessonMetadata
}.

Definition sync_script_path : path := ["scripts"; "sync-lesson.sh"].

Section Manager.
Context `{NameMatcher}.

(** [CommandRunner.run_script("./scripts/sync-lesson.sh", folder)].  The
    file at that place is the script written by [create_sync_script];
    the folder is one shell word other than [--all], so the script
    calls [sync_single_lesson] on it; the run ends within the timeout
    of [CommandRunner.run]. *)
Definition run_script (E : Env) (arg : string) (t : tree)
  : (bool * diagnostic) * tree :=
  if negb (bool_decide (is_Some (t !! sync_script_path)))
  then ((false, Message "Script not found: ./scripts/sync-lesson.sh"), t)
  else
    let '(t', success) := SyncScript.sync_single_lesson E arg t in
    ((success, if success then Stdout else Stderr), t').

(** [LessonManager.sync_lesson].  The [Lesson] object passed in is the
    element [i] of [self.metadata.lessons], so the assignment to its
    [last_synced] is an update of that list in place; [lesson] is the
    value of the object when the call starts. *)
Definition sync_lesson (E : Env) (i : nat) (lesson : Lesson) (w : World)
  : (bool * diagnostic) * World :=
  if negb (Lesson_exists (w_tree w) lesson)
  then ((false, Message ("Lesson directory not found: " +:+ folder lesson)), w)
  else
    let '((success, output), t') := run_script E (folder lesson) (w_tree w) in
    if success then
      let m := w_metadata w in
      let m' := mkLessonMetadata
                  (alter (set_last_synced (today E)) i (lessons m))
                  (last_updated m) (version m) (preservation_patterns m) in
      ((success, output), mkWorld t' (save m') m')
    else
      ((success, output), mkWorld t' (w_catalog w) (w_metadata w)).

(** The loop of [LessonManager.sync_all_lessons] from the lesson at
    index [i] on; [E k] is what the outside world answers while the
    lesson at index [k] is synced. *)
Fixpoint sync_loop (E : nat → Env) (i : nat) (todo : list Lesson)
    (success_count failed_count : nat) (w : World) : (nat * nat) * World :=
  match todo with
  | [] => ((success_count, failed_count), w)
  | lesson :: rest =>
      let '((success, _), w') := sync_lesson (E i) i lesson w in
      if success
      then sync_loop E (S i) rest (S success_count) failed_count w'
      else sync_loop E (S i) rest success_count (S failed_count) w'
  end.

(** [LessonManager.sync_all_lessons]. *)
Definition sync_all_lessons (E : nat → Env) (w : World) : (nat * nat) * World :=
  sync_loop E 0 (lessons (w_metadata w)) 0 0 w.

(** The outcomes of [sync_lesson] applied to the lessons one after the
    other, each on the state its predecessor left, whatever the
    outcomes are. *)
Fixpoint sync_each (E : nat → Env) (i : nat) (todo : list Lesson) (w : World)
  : list bool * World :=
  match todo with
  | [] => ([], w)
  | lesson :: rest =>
      let '((success, _), w') := sync_lesson (E i) i lesson w in
      let '(outcomes, w'') := sync_each E (S i) rest w' in
      (success :: outcomes, w'')
  end.

End Manager.

(** How many outcomes are a success, how many a failure. *)
Definition successes (outcomes : list bool) : nat :=
  length (List.filter id outcomes).
Definition failures (outcomes : list bool) : nat :=
  length (List.filter negb outcomes).

(** Python compares [str] values by code point; on dates written as
    [%Y-%m-%d] that is the order of the calendar. *)
Definition date_le (a b : string) : Prop := String.le a b.

(* ===================================================================== *)
(** * A lesson as [add-lesson.sh] leaves it, with one local file          *)
(* ===================================================================== *)

Module Example.

Definition url : string :=
  "https://github.com/azniosman/5m-data-1.1-intro-data-science.git".

Definition lesson : Lesson :=
  mkLesson "lesson1_1_intro_data_science" "intro_data_science" "1_1" url
           "2026-10-01" "2026-10-01" "Introduction to Data Science" "1" false.

(** A lesson of the catalog whose directory is not there. *)
Definition absent_lesson : Lesson :=
  mkLesson "lesson9_9_missing" "missing" "9_9" url
           "2026-10-01" "2026-10-01" "" "9" false.

Definition catalog : LessonMetadata :=
  mkLessonMetadata [lesson; absent_lesson] "2026-10-01T08:00:00Z" "1.0.0"
    ["*.local.*"; "*-custom.*"; "*-notes.*"; "my-*"; "custom-*/"].

Definition lesson_info : string :=
  "# lesson1_1_intro_data_science

## Lesson Information
- **Lesson Number**: 1_1
- **Source Repository**: https://github.com/azniosman/5m-data-1.1-intro-data-science.git
- **Added Date**: 2026-10-01
- **Last Synced**: 2026-10-01
".

Definition root : path := Lesson_path lesson.

(** The working tree: the lesson as cloned, plus the learner's copy
    [intro.local.ipynb] and a directory [custom-work] with a note. *)
Definition working_tree : tree :=
  list_to_map
    [ (["scripts"], Dir);
      (["scripts"; "sync-lesson.sh"], File "#!/bin/bash");
      (["lessons"], Dir);
      (root, Dir);
      (root ++ ["LESSON_INFO.md"], File lesson_info);
      (root ++ [".custom-changes"], Dir);
      (root ++ ["intro.ipynb"], File "upstream, first version");
      (root ++ ["intro.local.ipynb"], File "my own work");
      (root ++ ["custom-work"], Dir);
      (root ++ ["custom-work"; "todo.md"], File "remember the joins") ].

(** What the upstream repository holds now; it ships a file with the
    name of the learner's copy. *)
Definition upstream : tree :=
  list_to_map
    [ (["intro.ipynb"], File "upstream, second version");
      (["intro.local.ipynb"], File "upstream sample");
      (["solutions.ipynb"], File "solutions") ].

Definition world : World := mkWorld working_tree (save catalog) catalog.

(** A run during which the clone works. *)
Definition online : Env :=
  mkEnv (λ u, if String.eqb u url then Some upstream else None)
        "20261104-101500" "2026-11-04" "2026-11-04".

(** A run during which every clone fails. *)
Definition offline : Env :=
  mkEnv (λ _, None) "20261104-101500" "2026-11-04" "2026-11-04".

(** A run during which the clock of the machine reads an earlier day
    than the one recorded in the catalog. *)
Definition clock_behind : Env :=
  mkEnv (λ u, if String.eqb u url then Some upstream else None)
        "20260930-101500" "2026-09-30" "2026-09-30".

(** A catalog whose one pattern has two components. *)
Definition nested_pattern_catalog : LessonMetadata :=
  mkLessonMetadata [lesson] "" "1.0.0" ["custom-work/todo.md"].

(** The same working tree with a file outside the lesson directory. *)
Definition other_tree : tree := <[["README.md"] := File "readme"]> working_tree.

Definition other_catalog : LessonMetadata :=
  mkLessonMetadata [] "" "2.0.0" (preservation_patterns catalog).

(** The states the manager leaves after a sync of the lesson. *)
Definition after_online : World := (sync_lesson (H:=glob_match) online 0 lesson world).2.
Definition after_offline : World := (sync_lesson (H:=glob_match) offline 0 lesson world).2.
Definition after_clock_behind : World :=
  (sync_lesson (H:=glob_match) clock_behind 0 lesson world).2.

End Example.

(* ===================================================================== *)
(** * The matcher in the words of the specification                       *)
(* ===================================================================== *)

Module Spec.

Section Words.
Context `{NameMatcher}.

(** The last names of [rel] match the components of a pattern one for
    one; what lies above them is free. *)
Definition trailing_match (parts : list string) (rel : path) : Prop :=
  ∃ above names,
    rel = above ++ names ∧ Forall2 (λ n p, fnmatch n p = true) names parts.

(** "A path matches a pattern": a pattern with a trailing separator
    selects directories, any other pattern selects files; [rel] is
    relative to [root]. *)
Definition matches (t : tree) (root : path) (pattern : string) (rel : path) : Prop :=
  if Text.ends_with Text.slash pattern
  then t !! (root ++ rel) = Some Dir ∧
       ∃ parts, Glob.parse_pattern (Text.rstrip Text.slash pattern) = Some parts ∧
                trailing_match parts rel
  else (∃ content, t !! (root ++ rel) = Some (File content)) ∧
       ∃ parts, Glob.parse_pattern pattern = Some parts ∧
                trailing_match parts rel.

(** The same with the pattern held against the name of the entry
    alone: directory names for a pattern with a trailing separator,
    file names for any other. *)
Definition matches_by_name (t : tree) (root : path) (pattern : string) (rel : path) : Prop :=
  rel ≠ [] ∧
  if Text.ends_with Text.slash pattern
  then t !! (root ++ rel) = Some Dir ∧
       fnmatch (Fs.basename rel) (Text.rstrip Text.slash pattern) = true
  else (∃ content, t !! (root ++ rel) = Some (File content)) ∧
       fnmatch (Fs.basename rel) pattern = true.

(** The pattern, without its trailing separators if it is a directory
    pattern, is made of plain components. *)
Definition in_fragment (pattern : string) : Prop :=
  is_Some (Glob.parse_pattern
             (if Text.ends_with Text.slash pattern
              then Text.rstrip Text.slash pattern else pattern)).

End Words.

End Spec.

(* ===================================================================== *)
(** * Catalog queries and statistics of [LessonManager]                   *)
(* ===================================================================== *)

(** [LessonManager.get_lesson_by_folder]: the first lesson of the catalog
    with that folder, [None] when there is none. *)
Fixpoint first_with_folder (ls : list Lesson) (f : string) : option Lesson :=
  match ls with
  | [] => None
  | lesson :: rest =>
      if String.eqb (folder lesson) f then Some lesson
      else first_with_folder rest f
  end.

Definition get_lesson_by_folder (m : LessonMetadata) (f : string) : option Lesson :=
  first_with_folder (lessons m) f.

(** [LessonManager.get_lessons_by_module]. *)
Definition get_lessons_by_module (m : LessonMetadata) (md : string) : list Lesson :=
  filter (λ l, module l = md) (lessons m).

(** The dict [get_statistics] returns, one field for each key. *)
Record Statistics : Type := mkStatistics {
  total_lessons : nat;
  modules : gmap string nat;
  lessons_with_custom : nat;
  lessons_synced_today : nat
}.

(** The body of the loop over the lessons in [get_statistics]: the key is
    entered with 0 when it is not there, then its count goes up by one. *)
Definition count_module (acc : gmap string nat) (lesson : Lesson) : gmap string nat :=
  let acc := match acc !! module lesson with
             | None => <[module lesson := 0]> acc
             | Some _ => acc
             end in
  alter S (module lesson) acc.

(** [LessonManager.get_statistics]; [day] is what
    [datetime.now().strftime("%Y-%m-%d")] gives while it runs. *)
Definition get_statistics (m : LessonMetadata) (day : string) : Statistics :=
  mkStatistics
    (length (lessons m))
    (foldl count_module ∅ (lessons m))
    (length (filter (λ l, has_custom_changes l = true) (lessons m)))
    (length (filter (λ l, last_synced l = day) (lessons m))).

(** The sum of the counts of a [modules] dict. *)
Definition module_total (counts : gmap string nat) : nat :=
  map_fold (λ _ n acc, n + acc) 0 counts.

(** The loop of [SyncMenu.check_sync_status]: the lessons synced on [day]
    and the others, each list in the order of the catalog. *)
Definition check_sync_status (m : LessonMetadata) (day : string)
  : list Lesson * list Lesson :=
  foldl (λ acc lesson,
           if decide (last_synced lesson = day)
           then (acc.1 ++ [lesson], acc.2)
           else (acc.1, acc.2 ++ [lesson]))
        ([], []) (lessons m).

(** The lessons [get_lessons_by_module] returns are objects of the
    catalog; here each comes with its index in [self.metadata.lessons]. *)
Definition module_entries (m : LessonMetadata) (md : string) : list (nat * Lesson) :=
  filter (λ e, module e.2 = md) (imap pair (lessons m)).

Section ModuleSync.
Context `{NameMatcher}.

(** The loop of [SyncMenu.sync_module], once the choice is confirmed:
    [sync_lesson] on each lesson of the module, with the two counters the
    menu prints.  [E k] is what the outside world answers during the
    [k]-th sync of the loop. *)
Fixpoint sync_module_loop (E : nat → Env) (k : nat) (todo : list (nat * Lesson))
    (success_count failed_count : nat) (w : World) : (nat * nat) * World :=
  match todo with
  | [] => ((success_count, failed_count), w)
  | (i, lesson) :: rest =>
      let '((success, _), w') := sync_lesson (E k) i lesson w in
      if success
      then sync_module_loop E (S k) rest (S success_count) failed_count w'
      else sync_module_loop E (S k) rest success_count (S failed_count) w'
  end.

(** [SyncMenu.sync_module]: [choice] is what the prompt returns and
    [confirmed] the answer to the question the menu asks for a choice
    among 1, 2 and 3.  The counters are those of the line the menu
    prints when the loop has run. *)
Definition sync_module (E : nat → Env) (choice : string) (confirmed : bool) (w : World)
  : option (nat * nat) * World :=
  if bool_decide (choice ∈ ["1"; "2"; "3"]) && confirmed
  then
    let '(counts, w') :=
      sync_module_loop E 0 (module_entries (w_metadata w) choice) 0 0 w in
    (Some counts, w')
  else (None, w).

End ModuleSync.

(** The same lesson but for [last_synced]. *)
Definition differs_in_last_synced_only (l l' : Lesson) : Prop :=
  set_last_synced (last_synced l) l' = l.

(* ===================================================================== *)
(** * The script [scripts/add-lesson.sh] and [add_all_lessons] of setup   *)
(* ===================================================================== *)

Module AddScript.

(** The text of a [LESSON_INFO.md] in the layout of the here-document of
    the script, with its two dates. *)
Definition info_text (FOLDER_NAME LESSON_NUM SOURCE_REPO ADDED SYNCED : string)
  : string :=
  Text.unlines
    [ "# " +:+ FOLDER_NAME;
      "";
      "## Lesson Information";
      "- **Lesson Number**: " +:+ LESSON_NUM;
      "- **Source Repository**: " +:+ SOURCE_REPO;
      "- **Added Date**: " +:+ ADDED;
      "- **Last Synced**: " +:+ SYNCED;
      "";
      "## Preserved Files";
      "Files matching these patterns are preserved during syncs:";
      "- *.local.* - Your local versions";
      "- my-*.md - Personal notes";
      "- *-custom.* - Custom modifications";
      "- custom-*/ - Custom directories";
      "";
      "## Usage";
      "```bash";
      "# Create your version";
      "cp notebook.ipynb notebook.local.ipynb";
      "";
      "# Sync updates";
      "./scripts/sync-lesson.sh " +:+ FOLDER_NAME;
      "```";
      "" ].

(** What the here-document writes: the shell puts the values of the
    variables in (both dates are [CURRENT_DATE]) and turns an escaped
    backquote into a backquote. *)
Definition lesson_info (FOLDER_NAME LESSON_NUM SOURCE_REPO CURRENT_DATE : string)
  : string :=
  info_text FOLDER_NAME LESSON_NUM SOURCE_REPO CURRENT_DATE CURRENT_DATE.

(** [git clone --depth 1 url dst] for a [dst] that is not a directory:
    the clone fails when something is at [dst] or a file is in the way of
    the directories above it, and a failed clone leaves nothing.  The
    script discards the status (pipeline through grep, then true). *)
Definition clone (E : Env) (url : string) (dst : path) (t : tree) : tree :=
  match remote E url with
  | Some files =>
      if bool_decide (is_Some (t !! dst)) then t
      else match Fs.mkdir_p dst t with
           | Some t' => (Fs.copy_into dst files t').1
           | None => t
           end
  | None => t
  end.

(** The script, called with its arguments: the tree it leaves and whether
    it exits with 0. *)
Definition add_lesson (E : Env) (args : list string) (t : tree) : tree * bool :=
  match args with
  | SOURCE_REPO :: LESSON_NUM :: LESSON_NAME :: _ =>
      let FOLDER_NAME := "lesson" +:+ LESSON_NUM +:+ "_" +:+ LESSON_NAME in
      let LESSON_PATH := ["lessons"; FOLDER_NAME] in
      if Fs.is_dir t LESSON_PATH then (t, false)
      else
        (* Clone the repository *)
        let t1 := clone E SOURCE_REPO LESSON_PATH t in
        let t2 := Fs.rm_rf (LESSON_PATH ++ [".git"]) t1 in
        (* Create custom changes directory *)
        match Fs.mkdir_p (LESSON_PATH ++ [".custom-changes"]) t2 with
        | None => (t2, false)
        | Some t3 =>
            (* Create lesson info file *)
            let info := LESSON_PATH ++ ["LESSON_INFO.md"] in
            if Fs.is_dir t3 info then (t3, false)
            else (<[info := File (lesson_info FOLDER_NAME LESSON_NUM SOURCE_REPO
                                              (utc_date E))]> t3, true)
        end
  | _ => (t, false)
  end.

End AddScript.

Module Setup.






End Setup.

(* ===================================================================== *)
(** * Words used in the statements about the scripts                      *)
(* ===================================================================== *)

(** The text [s] does not hold [needle]. *)
Abbreviation absent needle s := (Text.contains needle s = false).

(** The text of one line break. *)
Abbreviation nl := (String Text.newline EmptyString).

(** Putting a directory in front of a path loses nothing. *)
Global Instance path_app_inj (dst : path) : Inj (=) (=) (app dst).
Proof. intros ???. by eapply app_inv_head. Qed.

(** The entries [cp -r --parents src] hands to the copy, keyed by their
    full names: the two maps [cp_parents] joins. *)
Definition cp_source (backup src : path) (t : tree) : tree :=
  filter (λ e : path * node, src `prefix_of` e.1 ∧ ¬ (backup ++ src) `prefix_of` e.1) t
  ∪ list_to_map (map (λ d, (d, Dir))
      (filter (λ d, d ≠ [] ∧ d ≠ src) (Fs.ancestors src))).

Section ScriptWords.
Context `{NameMatcher}.

(** The matcher takes [lit] as a name: it has no wildcard. *)
Definition literal_pattern (lit : string) : Prop :=
  ∀ n, fnmatch n lit = bool_decide (n = lit).

End ScriptWords.

(** A pattern without a star or a question mark. *)
Fixpoint plain_chars (pattern : string) : bool :=
  match pattern with
  | EmptyString => true
  | String c rest =>
      negb (Text.ascii_eqb c Text.star) && negb (Text.ascii_eqb c "?"%char)
      && plain_chars rest
  end.

(** What the backup loop of [sync-lesson.sh] keeps true of a file [q]
    with content [c] directly in the lesson directory, and of the places
    its copy goes through; [copied] tells whether the copy is known to
    be there. *)
Definition backup_inv (LESSON_PATH BACKUP_DIR q : path) (c : string)
    (copied : bool) (t2 : tree) : Prop :=
  t2 !! LESSON_PATH = Some Dir ∧
  t2 !! q = Some (File c) ∧
  (∀ r, r ≠ [] → t2 !! (q ++ r) = None) ∧
  (t2 !! (BACKUP_DIR ++ ["lessons"]) = None ∨ t2 !! (BACKUP_DIR ++ ["lessons"]) = Some Dir) ∧
  (t2 !! (BACKUP_DIR ++ LESSON_PATH) = None ∨ t2 !! (BACKUP_DIR ++ LESSON_PATH) = Some Dir) ∧
  (t2 !! (BACKUP_DIR ++ q) = Some (File c) ∨
   (copied = false ∧ t2 !! (BACKUP_DIR ++ q) = None)).


(** Sample inputs for the setup script and for runs that cannot start. *)
Module Sample.

Definition url2 : string :=
  "https://github.com/azniosman/5m-data-1.2-intro-database.git".


(** What a clone of the second repository brings. *)
Definition repo2 : tree :=
  list_to_map
    [ ([".git"], Dir);
      ([".git"; "HEAD"], File "ref: refs/heads/main");
      (["README.md"], File "# Introduction to Databases");
      (["notebooks"], Dir);
      (["notebooks"; "database.ipynb"], File "lesson") ].

(** A run during which the second repository can be cloned and no
    other. *)
Definition net : Env :=
  mkEnv (λ u, if String.eqb u url2 then Some repo2 else None)
        "20261104-101500" "2026-11-04" "2026-11-04".

(** The repository as the setup leaves it before the lessons are
    added. *)
Definition setup_tree : tree :=
  list_to_map
    [ (["scripts"], Dir);
      (["scripts"; "add-lesson.sh"], File "#!/bin/bash");
      (["scripts"; "sync-lesson.sh"], File "#!/bin/bash");
      (["lessons"], Dir) ].

(** The example world without its lesson directories. *)
Definition bare_world : World :=
  mkWorld setup_tree (save Example.catalog) Example.catalog.

(** The example world without the sync script. *)
Definition no_script_world : World :=
  mkWorld (delete sync_script_path Example.working_tree)
          (save Example.catalog) Example.catalog.

End Sample.

(* ===================================================================== *)
(** * Catalog storage: [LessonMetadata.load] and [LessonMetadata.save]    *)
(* ===================================================================== *)

Section CatalogStorage.

Lemma Lesson_of_kwargs_vars (l : Lesson) :
  Lesson_of_kwargs (vars l) = Load.ret l.
Proof. by destruct l. Qed.

Lemma mapM_Lesson_of_kwargs_vars (ls : list Lesson) :
  Load.mapM Lesson_of_kwargs (map vars ls) = Load.ret ls.
Proof.
  induction ls as [|l ls IH]; [done|].
  cbn [map Load.mapM]. rewrite Lesson_of_kwargs_vars, IH. done.
Qed.

Lemma as_str_list_strings (ss : list string) :
  Load.as_str_list (JArray (map JString ss)) = Load.ret ss.
Proof.
  unfold Load.as_str_list.
  induction ss as [|s ss IH]; [done|].
  cbn [map Load.mapM]. rewrite IH. done.
Qed.

(** C9.  When the metadata file does not exist, [load] does not raise: it
    returns the default catalog, with no lessons, an empty
    [last_updated], version 1.0.0 and no preservation patterns. *)
Theorem load_missing_file_default :
  load NoFile = Load.ret (mkLessonMetadata [] "" "1.0.0" []).
Proof. reflexivity. Qed.

(** C10.  Saving a catalog and loading the file again gives the catalog
    back, whatever its lessons, version, timestamp and patterns are. *)
Theorem save_load_roundtrip (m : LessonMetadata) :
  load (save m) = Load.ret m.
Proof.
  destruct m as [ls updated ver pats].
  unfold save, to_json, load. cbn -[Load.mapM Load.as_str_list].
  rewrite mapM_Lesson_of_kwargs_vars. cbn -[Load.as_str_list].
  rewrite as_str_list_strings. done.
Qed.

End CatalogStorage.

(* ===================================================================== *)
(** * The preservation matcher                                            *)
(* ===================================================================== *)

Section MatcherFacts.
Context `{NameMatcher}.

Lemma replace_char_same (c : Ascii.ascii) (s : string) : Text.replace_char c c s = s.
Proof.
  induction s as [|a s IH]; [done|].
  cbn. rewrite IH. unfold Text.ascii_eqb. by case_bool_decide; subst.
Qed.

Lemma names_match_Forall2 (names parts : list string) :
  Glob.names_match names parts = true ↔
  Forall2 (λ n p, fnmatch n p = true) names parts.
Proof.
  revert parts. induction names as [|n names IH]; intros [|p parts]; cbn.
  - split; [constructor|done].
  - split; [done|inversion 1].
  - split; [done|inversion 1].
  - rewrite andb_true_iff, IH. split.
    + intros [??]. by constructor.
    + inversion 1; subst. done.
Qed.

Lemma selects_trailing_match (parts : list string) (rel : path) :
  Glob.selects parts rel = true ↔ Spec.trailing_match parts rel.
Proof.
  unfold Glob.selects, Spec.trailing_match. rewrite names_match_Forall2. split.
  - intros Hm. exists (take (length rel - length parts) rel), (drop (length rel - length parts) rel).
    by rewrite take_drop.
  - intros (above & names & -> & Hm).
    pose proof (Forall2_length _ _ _ Hm) as Hlen.
    rewrite length_app, <- Hlen.
    replace (length above + length names - length names) with (length above) by lia.
    by rewrite drop_app_length.
Qed.

Lemma trailing_match_nonempty (parts : list string) (rel : path) :
  parts ≠ [] → Spec.trailing_match parts rel → rel ≠ [].
Proof.
  intros Hne (above & names & -> & Hm) Hnil.
  apply app_eq_nil in Hnil as [_ ->]. inversion Hm; by subst.
Qed.

Lemma parse_pattern_nonempty (pattern : string) (parts : list string) :
  Glob.parse_pattern pattern = Some parts → parts ≠ [].
Proof.
  unfold Glob.parse_pattern. case_match; [|done]. intros [= <-].
  destruct pattern as [|a s]; [done|]. cbn.
  case_match; [done|]. by case_match.
Qed.

(** What [rglob] yields: the entries of the tree below [root] that the
    selector accepts. *)
Lemma rglob_elem (t : tree) (root : path) (pattern : string)
    (parts : list string) (items : list path) (p : path) :
  Glob.parse_pattern pattern = Some parts →
  Glob.rglob t root pattern = Some items →
  p ∈ items ↔
  is_Some (t !! p) ∧ root `prefix_of` p ∧
  Glob.selects parts (Fs.relative_to root p) = true.
Proof.
  unfold Glob.rglob. intros -> [= <-]. cbn.
  rewrite list_elem_of_fmap. split.
  - intros ([q n] & -> & Hin). apply elem_of_map_to_list in Hin.
    apply map_lookup_filter_Some in Hin as [Hq [??]]. cbn in *. eauto.
  - intros ([n Hn] & ? & ?). exists (p, n). split; [done|].
    apply elem_of_map_to_list, map_lookup_filter_Some. done.
Qed.

Lemma rglob_is_Some (t : tree) (root : path) (pattern : string) :
  is_Some (Glob.parse_pattern pattern) → is_Some (Glob.rglob t root pattern).
Proof. unfold Glob.rglob. intros [parts ->]. cbn. eauto. Qed.

Lemma prefix_relative (root p : path) :
  root `prefix_of` p → p = root ++ Fs.relative_to root p.
Proof. intros [k ->]. unfold Fs.relative_to. by rewrite drop_app_length. Qed.

Lemma relative_to_app (root rel : path) : Fs.relative_to root (root ++ rel) = rel.
Proof. unfold Fs.relative_to. by rewrite drop_app_length. Qed.

(** One round of the loop of [check_custom_changes]. *)
Lemma custom_files_of_matches (t : tree) (root : path) (pattern : string) :
  Spec.in_fragment pattern →
  ∃ found, custom_files_of t root pattern = Some found ∧
    ∀ s, s ∈ found ↔ ∃ rel, s = Fs.path_str rel ∧ Spec.matches t root pattern rel.
Proof.
  unfold Spec.in_fragment, custom_files_of, Spec.matches.
  rewrite replace_char_same.
  destruct (Text.ends_with Text.slash pattern); intros [parts Hparts].
  - destruct (rglob_is_Some t root _ (mk_is_Some _ _ Hparts)) as [items Hitems].
    rewrite Hitems. eexists; split; [done|]. intros s.
    rewrite list_elem_of_fmap. setoid_rewrite list_elem_of_filter.
    setoid_rewrite (rglob_elem _ _ _ _ _ _ Hparts Hitems).
    setoid_rewrite selects_trailing_match. unfold Fs.is_dir. split.
    + intros (p & -> & Hdir & _ & Hpre & Hsel).
      exists (Fs.relative_to root p). split; [done|].
      rewrite <- (prefix_relative _ _ Hpre).
      split; [|eauto]. by repeat case_match.
    + intros (rel & -> & Hdir & parts' & Hp' & Hsel).
      assert (parts' = parts) as -> by congruence.
      exists (root ++ rel). rewrite relative_to_app, Hdir.
      repeat split; eauto. by apply prefix_app_r.
  - destruct (rglob_is_Some t root _ (mk_is_Some _ _ Hparts)) as [items Hitems].
    rewrite Hitems. eexists; split; [done|]. intros s.
    rewrite list_elem_of_fmap. setoid_rewrite list_elem_of_filter.
    setoid_rewrite (rglob_elem _ _ _ _ _ _ Hparts Hitems).
    setoid_rewrite selects_trailing_match. unfold Fs.is_file. split.
    + intros (p & -> & Hfile & _ & Hpre & Hsel).
      exists (Fs.relative_to root p). split; [done|].
      rewrite <- (prefix_relative _ _ Hpre).
      split; [|eauto]. repeat case_match; try done. eauto.
    + intros (rel & -> & [content Hfile] & parts' & Hp' & Hsel).
      assert (parts' = parts) as -> by congruence.
      exists (root ++ rel). rewrite relative_to_app, Hfile.
      repeat split; eauto. by apply prefix_app_r.
Qed.

Lemma custom_files_loop_matches (t : tree) (root : path) (patterns : list string) :
  Forall Spec.in_fragment patterns →
  ∃ found, custom_files_loop t root patterns = Some found ∧
    ∀ s, s ∈ found ↔
         ∃ pattern rel, pattern ∈ patterns ∧ s = Fs.path_str rel ∧
                        Spec.matches t root pattern rel.
Proof.
  induction 1 as [|pattern patterns Hfrag _ IH]; cbn.
  - eexists; split; [done|]. intros s. split; [by intros ?%elem_of_nil|].
    by intros (? & ? & ?%elem_of_nil & _).
  - destruct (custom_files_of_matches t root pattern Hfrag) as (found & -> & Hfound).
    destruct IH as (more & -> & Hmore). cbn.
    eexists; split; [done|]. intros s.
    rewrite elem_of_app, Hfound, Hmore. split.
    + intros [(rel & ? & ?)|(pat & rel & ? & ? & ?)].
      * exists pattern, rel. rewrite elem_of_cons. eauto.
      * exists pat, rel. rewrite elem_of_cons. eauto.
    + intros (pat & rel & [->|?]%elem_of_cons & ? & ?); eauto 10.
Qed.
Lemma basename_app (above : path) (n : string) : Fs.basename (above ++ [n]) = n.
Proof. unfold Fs.basename. by rewrite last_snoc. Qed.

(** For a pattern of one component the selector looks at the name of
    the entry and at nothing else. *)
Lemma trailing_match_one (part : string) (rel : path) :
  Spec.trailing_match [part] rel ↔ rel ≠ [] ∧ fnmatch (Fs.basename rel) part = true.
Proof.
  split.
  - intros (above & names & -> & Hm).
    inversion Hm as [|n ? ns ? Hn Hns]; subst. inversion Hns; subst.
    rewrite basename_app. split; [|done]. by intros [_ ?]%app_eq_nil.
  - intros [Hne Hm]. destruct rel as [|n rel _] using rev_ind; [done|].
    rename rel into above.
    rewrite basename_app in Hm. exists above, [n]. split; [done|].
    by repeat constructor.
Qed.

(** C6, as amended.  For patterns made of plain components, the matcher
    returns, and a path is in its result exactly when, for at least one
    pattern of the set, the last names of the path match the components
    of the pattern one for one: directories for a pattern with a
    trailing separator, files for any other.  Paths are relative to the
    lesson directory.  For a pattern of one component this is a match
    on the name of the entry ([trailing_match_one]). *)
Theorem check_custom_changes_matches (m : LessonMetadata) (t : tree) (lesson : Lesson) :
  Lesson_exists t lesson = true →
  Forall Spec.in_fragment (preservation_patterns m) →
  ∃ found, check_custom_changes m t lesson = Some found ∧
    ∀ s, s ∈ found ↔
         ∃ pattern rel, pattern ∈ preservation_patterns m ∧
                        s = Fs.path_str rel ∧
                        Spec.matches t (Lesson_path lesson) pattern rel.
Proof.
  intros Hex Hfrag. unfold check_custom_changes. rewrite Hex. cbn.
  by apply custom_files_loop_matches.
Qed.

(** C7.  When the lesson directory does not exist (or is not a
    directory), the matcher returns the empty list, whatever the
    patterns are; it does not fail. *)
Theorem check_custom_changes_missing_root (m : LessonMetadata) (t : tree) (lesson : Lesson) :
  Fs.is_dir t (Lesson_path lesson) = false →
  check_custom_changes m t lesson = Some [].
Proof.
  intros Hdir. unfold check_custom_changes, Lesson_exists.
  by rewrite Hdir, andb_false_r.
Qed.

Lemma rglob_agree (t1 t2 : tree) (root : path) (pattern : string) :
  (∀ p, root `prefix_of` p → t1 !! p = t2 !! p) →
  Glob.rglob t1 root pattern = Glob.rglob t2 root pattern.
Proof.
  intros Hagree. unfold Glob.rglob.
  destruct (Glob.parse_pattern pattern) as [parts|]; [|done]. cbn.
  do 3 f_equal. apply map_filter_strong_ext_1. intros p n. cbn.
  split; intros [[Hpre ?] Hp]; (split; [done|]).
  - by rewrite <- Hagree.
  - by rewrite Hagree.
Qed.

Lemma rglob_below (t : tree) (root : path) (pattern : string) (items : list path) :
  Glob.rglob t root pattern = Some items → Forall (λ p, root `prefix_of` p) items.
Proof.
  unfold Glob.rglob. destruct (Glob.parse_pattern pattern); [|done].
  intros [= <-]. apply Forall_forall. intros p.
  rewrite list_elem_of_fmap. intros ([q n] & -> & Hin).
  apply elem_of_map_to_list, map_lookup_filter_Some in Hin as [_ [??]]. done.
Qed.

Lemma filter_agree {A} (P Q : A → Prop) `{!∀ x, Decision (P x), !∀ x, Decision (Q x)}
    (l : list A) :
  Forall (λ x, P x ↔ Q x) l → filter P l = filter Q l.
Proof.
  induction 1 as [|x l Hx _ IH]; [done|].
  rewrite !filter_cons, IH. destruct (decide (P x)), (decide (Q x)); tauto.
Qed.

Lemma custom_files_of_agree (t1 t2 : tree) (root : path) (pattern : string) :
  (∀ p, root `prefix_of` p → t1 !! p = t2 !! p) →
  custom_files_of t1 root pattern = custom_files_of t2 root pattern.
Proof.
  intros Hagree. unfold custom_files_of.
  destruct (Text.ends_with Text.slash pattern).
  - rewrite (rglob_agree t1 t2 root _ Hagree).
    destruct (Glob.rglob t2 root _) as [items|] eqn:Hitems; [|done].
    do 2 f_equal. apply filter_agree.
    eapply Forall_impl; [by eapply rglob_below|]. intros p Hp. cbn.
    unfold Fs.is_dir. by rewrite (Hagree p Hp).
  - rewrite (rglob_agree t1 t2 root _ Hagree).
    destruct (Glob.rglob t2 root _) as [items|] eqn:Hitems; [|done].
    do 2 f_equal. apply filter_agree.
    eapply Forall_impl; [by eapply rglob_below|]. intros p Hp. cbn.
    unfold Fs.is_file. by rewrite (Hagree p Hp).
Qed.

(** C8.  Determinism: the result of the matcher is a function of the
    pattern set and of the content of the lesson directory alone.  Two
    runs with the same patterns on trees that agree at and below the
    lesson directory return the same list, whatever else differs in
    the catalog or in the rest of the tree. *)
Theorem check_custom_changes_deterministic
    (m1 m2 : LessonMetadata) (t1 t2 : tree) (lesson : Lesson) :
  preservation_patterns m1 = preservation_patterns m2 →
  (∀ p, Lesson_path lesson `prefix_of` p → t1 !! p = t2 !! p) →
  check_custom_changes m1 t1 lesson = check_custom_changes m2 t2 lesson.
Proof.
  intros Hpat Hagree. unfold check_custom_changes, Lesson_exists, Fs.is_dir.
  assert (t1 !! Lesson_path lesson = t2 !! Lesson_path lesson) as ->
    by (apply Hagree; exists []; by rewrite app_nil_r).
  rewrite Hpat. clear Hpat.
  destruct (_ && _); [|done]. cbn.
  induction (preservation_patterns m2) as [|pattern rest IH]; [done|].
  cbn. rewrite (custom_files_of_agree t1 t2 _ _ Hagree), IH. done.
Qed.
End MatcherFacts.

(* ===================================================================== *)
(** * The sync engine: [sync_lesson] and [sync_all_lessons]               *)
(* ===================================================================== *)

Section ManagerFacts.
Context `{NameMatcher}.

(** C3.  When the directory of the lesson does not exist, [sync_lesson]
    returns at once with a failure and the message that the lesson
    directory was not found, and the working tree, the catalog file and
    the catalog in memory (with every [last_synced]) are what they
    were. *)
Theorem sync_lesson_missing_directory (E : Env) (i : nat) (lesson : Lesson) (w : World) :
  Lesson_exists (w_tree w) lesson = false →
  sync_lesson E i lesson w =
    ((false, Message ("Lesson directory not found: " +:+ folder lesson)), w).
Proof. intros Hex. unfold sync_lesson. by rewrite Hex. Qed.

(** The two ways [sync_lesson] can end. *)
Lemma sync_lesson_cases (E : Env) (i : nat) (lesson : Lesson) (w : World)
    (ok : bool) (out : diagnostic) (w' : World) :
  sync_lesson E i lesson w = ((ok, out), w') →
  (ok = false ∧ w_metadata w' = w_metadata w ∧ w_catalog w' = w_catalog w) ∨
  (ok = true ∧
   lessons (w_metadata w') = alter (set_last_synced (today E)) i (lessons (w_metadata w)) ∧
   w_catalog w' = save (w_metadata w')).
Proof.
  unfold sync_lesson. destruct (negb _).
  - intros [= <- <- <-]. by left.
  - destruct (run_script _ _ _) as [[success output] t'].
    destruct success; intros [= <- <- <-]; [right|left]; done.
Qed.

(** A sync touches no other lesson of the catalog: the loop of
    [sync_all_lessons] hands each lesson to [sync_lesson] as the
    catalog holds it at that moment. *)
Lemma sync_lesson_other_lessons (E : Env) (i j : nat) (lesson : Lesson) (w : World) :
  j ≠ i →
  lessons (w_metadata (sync_lesson E i lesson w).2) !! j = lessons (w_metadata w) !! j.
Proof.
  intros Hne. destruct (sync_lesson E i lesson w) as [[ok out] w'] eqn:Hsync.
  cbn. apply sync_lesson_cases in Hsync as [(_ & -> & _)|(_ & -> & _)]; [done|].
  by rewrite list_lookup_alter_ne.
Qed.

(** C4, as amended.  A failed sync leaves the catalog in memory and the
    catalog file as they were, so [last_synced] is unchanged.  A
    successful sync sets the [last_synced] of the lesson to the date of
    the day and writes the catalog to its file.  [last_synced] does not
    decrease across the sync provided the date read from the clock is
    not earlier than the date recorded before. *)
Theorem sync_lesson_last_synced (E : Env) (i : nat) (lesson : Lesson) (w : World)
    (ok : bool) (out : diagnostic) (w' : World) :
  lessons (w_metadata w) !! i = Some lesson →
  sync_lesson E i lesson w = ((ok, out), w') →
  (ok = false → w_metadata w' = w_metadata w ∧ w_catalog w' = w_catalog w) ∧
  (ok = true →
     lessons (w_metadata w') !! i = Some (set_last_synced (today E) lesson) ∧
     w_catalog w' = save (w_metadata w')) ∧
  (date_le (last_synced lesson) (today E) →
     ∃ lesson', lessons (w_metadata w') !! i = Some lesson' ∧
                date_le (last_synced lesson) (last_synced lesson')).
Proof.
  intros Hi Hsync.
  apply sync_lesson_cases in Hsync as [(-> & Hm & Hc)|(-> & Hm & Hc)].
  - split_and!; [done|done|]. intros _. exists lesson. rewrite Hm.
    split; [done|]. unfold date_le. reflexivity.
  - assert (lessons (w_metadata w') !! i = Some (set_last_synced (today E) lesson)) as Hi'.
    { by rewrite Hm, list_lookup_alter_eq, Hi. }
    split_and!; [done|done|]. intros Hle. eauto.
Qed.

Lemma sync_loop_each (E : nat → Env) (todo : list Lesson) :
  ∀ (i success_count failed_count : nat) (w : World),
    sync_loop E i todo success_count failed_count w =
      ((success_count + successes (sync_each E i todo w).1,
        failed_count + failures (sync_each E i todo w).1),
       (sync_each E i todo w).2).
Proof.
  induction todo as [|lesson rest IH]; intros i s f w; cbn.
  - by rewrite !Nat.add_0_r.
  - destruct (sync_lesson (E i) i lesson w) as [[success out] w'].
    destruct (sync_each E (S i) rest w') as [outcomes w''] eqn:Heach.
    destruct success; rewrite IH, Heach; cbn; do 2 f_equal; lia.
Qed.

Lemma sync_each_length (E : nat → Env) (todo : list Lesson) :
  ∀ (i : nat) (w : World), length (sync_each E i todo w).1 = length todo.
Proof.
  induction todo as [|lesson rest IH]; intros i w; cbn; [done|].
  destruct (sync_lesson (E i) i lesson w) as [[success out] w'].
  specialize (IH (S i) w').
  destruct (sync_each E (S i) rest w') as [outcomes w'']. cbn in *. by rewrite IH.
Qed.

Lemma successes_failures (outcomes : list bool) :
  successes outcomes + failures outcomes = length outcomes.
Proof.
  unfold successes, failures. induction outcomes as [|[] r IH]; cbn; lia.
Qed.

(** C5.  [sync_all_lessons] applies [sync_lesson] to every lesson of the
    catalog in order, each on the state its predecessor left and
    whatever the earlier outcomes were, and returns the number of
    lessons whose sync succeeded and the number of those whose sync
    failed; no lesson is skipped. *)
Theorem sync_all_lessons_counts (E : nat → Env) (w : World) :
  sync_all_lessons E w =
    ((successes (sync_each E 0 (lessons (w_metadata w)) w).1,
      failures (sync_each E 0 (lessons (w_metadata w)) w).1),
     (sync_each E 0 (lessons (w_metadata w)) w).2) ∧
  length (sync_each E 0 (lessons (w_metadata w)) w).1 = length (lessons (w_metadata w)).
Proof.
  split; [|apply sync_each_length].
  unfold sync_all_lessons. by rewrite sync_loop_each.
Qed.
End ManagerFacts.

(* ===================================================================== *)
(** * The sync of the example lesson, step by step on the code            *)
(* ===================================================================== *)

Section Runs.
Import Example.

(** The learner's copy is a preserved path: its name matches the first
    preservation pattern, and the matcher reports it. *)
Example learner_copy_is_preserved :
  fnmatch (NameMatcher:=glob_match) "intro.local.ipynb" "*.local.*" = true ∧
  check_custom_changes (H:=glob_match) catalog working_tree lesson
    = Some ["intro.local.ipynb"; "custom-work"].
Proof. by vm_compute. Qed.

(** C1 on the code.  The upstream repository ships [intro.local.ipynb],
    a name the learner's preserved copy has too.  The sync succeeds,
    and the lesson directory then holds the upstream content at that
    path.  The backup was taken with the full name of the source
    ([cp --parents] on what find prints), so the restore step writes
    the learner's content below [lessons/<folder>] inside the lesson
    directory, not over the fetched file. *)
Theorem restore_misses_preserved_path :
  (sync_lesson (H:=glob_match) online 0 lesson world).1.1 = true ∧
  w_tree world !! (root ++ ["intro.local.ipynb"]) = Some (File "my own work") ∧
  upstream !! ["intro.local.ipynb"] = Some (File "upstream sample") ∧
  w_tree after_online !! (root ++ ["intro.local.ipynb"])
    = Some (File "upstream sample") ∧
  w_tree after_online !! (root ++ root ++ ["intro.local.ipynb"])
    = Some (File "my own work").
Proof. by vm_compute. Qed.

(** C2 on the code.  Every clone fails, and the script does not notice:
    the status of git is lost in the pipeline.  The old content is
    removed all the same, the script returns 0, and the manager records
    the day as [last_synced]. *)
Theorem failed_fetch_still_replaces :
  remote offline url = None ∧
  (sync_lesson (H:=glob_match) offline 0 lesson world).1.1 = true ∧
  w_tree world !! (root ++ ["intro.ipynb"]) = Some (File "upstream, first version") ∧
  w_tree after_offline !! (root ++ ["intro.ipynb"]) = None ∧
  last_synced <$> lessons (w_metadata world) !! 0 = Some "2026-10-01" ∧
  last_synced <$> lessons (w_metadata after_offline) !! 0 = Some "2026-11-04".
Proof. by vm_compute. Qed.

(** C4 as stated fails: [sync_lesson] writes the date it reads from the
    clock without looking at the recorded one, so a sync on a day the
    clock reads as earlier moves [last_synced] back. *)
Lemma last_synced_can_decrease :
  (sync_lesson (H:=glob_match) clock_behind 0 lesson world).1.1 = true ∧
  last_synced <$> lessons (w_metadata world) !! 0 = Some "2026-10-01" ∧
  last_synced <$> lessons (w_metadata after_clock_behind) !! 0 = Some "2026-09-30" ∧
  ¬ date_le "2026-10-01" "2026-09-30".
Proof. split_and!; by vm_compute. Qed.

(** C6 as stated fails: with the pattern [custom-work/todo.md] the
    matcher reports the file [custom-work/todo.md], and the name of
    that file, [todo.md], does not match the pattern. *)
Lemma nested_pattern_is_not_a_name_match :
  check_custom_changes (H:=glob_match) nested_pattern_catalog working_tree lesson
    = Some [Fs.path_str ["custom-work"; "todo.md"]] ∧
  ¬ ∃ pattern, pattern ∈ preservation_patterns nested_pattern_catalog ∧
      Spec.matches_by_name (H:=glob_match) working_tree root pattern
        ["custom-work"; "todo.md"].
Proof.
  split; [by vm_compute|].
  intros (pattern & Hin & _ & Hname). cbn in Hin.
  apply list_elem_of_singleton in Hin as ->.
  vm_compute in Hname. by destruct Hname as [_ ?].
Qed.

(** The batch over the example catalog: the first lesson syncs, the
    second has no directory, and the loop goes through both. *)
Example sync_all_lessons_example :
  (sync_all_lessons (H:=glob_match) (λ _, online) world).1 = (1, 1).
Proof. by vm_compute. Qed.

(** The second lesson of the example catalog has no directory: its sync
    fails at once and leaves the state as it was. *)
Lemma sync_lesson_missing_directory_witness :
  sync_lesson (H:=glob_match) online 1 absent_lesson world =
    ((false, Message ("Lesson directory not found: " +:+ folder absent_lesson)), world).
Proof.
  apply (sync_lesson_missing_directory (H:=glob_match) online 1 absent_lesson world).
  vm_compute. reflexivity.
Defined.

(** The sync of the example lesson with the clone working: it succeeds,
    the catalog records the day and is saved. *)
Lemma sync_lesson_last_synced_witness :
  (true = false →
     w_metadata after_online = w_metadata world ∧
     w_catalog after_online = w_catalog world) ∧
  (true = true →
     lessons (w_metadata after_online) !! 0
       = Some (set_last_synced (today online) lesson) ∧
     w_catalog after_online = save (w_metadata after_online)) ∧
  (date_le (last_synced lesson) (today online) →
     ∃ lesson', lessons (w_metadata after_online) !! 0 = Some lesson' ∧
                date_le (last_synced lesson) (last_synced lesson')).
Proof.
  apply (sync_lesson_last_synced (H:=glob_match) online 0 lesson world
           true Stdout after_online).
  - vm_compute. reflexivity.
  - vm_cast_no_check (eq_refl ((true, Stdout), after_online)).
Defined.

(** The patterns of the example catalog are plain and the lesson
    directory exists. *)
Lemma check_custom_changes_matches_witness :
  ∃ found, check_custom_changes (H:=glob_match) catalog working_tree lesson = Some found ∧
    ∀ s, s ∈ found ↔
         ∃ pattern rel, pattern ∈ preservation_patterns catalog ∧
                        s = Fs.path_str rel ∧
                        Spec.matches (H:=glob_match) working_tree (Lesson_path lesson) pattern rel.
Proof.
  apply (check_custom_changes_matches (H:=glob_match) catalog working_tree lesson).
  - vm_compute. reflexivity.
  - repeat (constructor; [vm_compute; eexists; reflexivity|]).
    constructor.
Defined.

(** The matcher on the lesson without a directory. *)
Lemma check_custom_changes_missing_root_witness :
  check_custom_changes (H:=glob_match) catalog working_tree absent_lesson = Some [].
Proof.
  apply (check_custom_changes_missing_root (H:=glob_match) catalog working_tree absent_lesson).
  vm_compute. reflexivity.
Defined.

(** Another catalog with the same patterns, and a tree that differs from
    the example outside the lesson directory only. *)
Lemma check_custom_changes_deterministic_witness :
  check_custom_changes (H:=glob_match) catalog working_tree lesson =
  check_custom_changes (H:=glob_match) other_catalog other_tree lesson.
Proof.
  apply (check_custom_changes_deterministic (H:=glob_match)
           catalog other_catalog working_tree other_tree lesson).
  - reflexivity.
  - intros p Hp. unfold other_tree. rewrite lookup_insert_ne; [reflexivity|].
    intros <-. destruct Hp as [k Hk]. discriminate Hk.
Defined.

End Runs.

(* ===================================================================== *)
(** * Catalog queries and statistics                                    *)
(* ===================================================================== *)

Section CatalogQueries.

Lemma first_with_folder_Some (ls : list Lesson) (f : string) (l : Lesson) :
  first_with_folder ls f = Some l ↔
  ∃ before after, ls = before ++ l :: after ∧ folder l = f ∧
                  Forall (λ x, folder x ≠ f) before.
Proof.
  induction ls as [|x ls IH]; cbn.
  - split; [done|]. intros (before & after & Heq & _). by destruct before.
  - destruct (String.eqb_spec (folder x) f) as [Hx|Hx].
    + split.
      * intros [= ->]. exists [], ls. by repeat split.
      * intros (before & after & Heq & Hl & Hbefore).
        destruct before as [|y before]; cbn in Heq.
        -- by injection Heq as -> _.
        -- injection Heq as -> _. by inversion Hbefore.
    + rewrite IH. split.
      * intros (before & after & -> & Hl & Hbefore).
        exists (x :: before), after. repeat split; [done|by constructor].
      * intros (before & after & Heq & Hl & Hbefore).
        destruct before as [|y before]; cbn in Heq.
        -- injection Heq as -> _. done.
        -- injection Heq as -> ->. exists before, after.
           repeat split; [done|]. by inversion Hbefore.
Qed.

Lemma first_with_folder_None (ls : list Lesson) (f : string) :
  first_with_folder ls f = None ↔ Forall (λ x, folder x ≠ f) ls.
Proof.
  induction ls as [|x ls IH]; cbn; [done|].
  destruct (String.eqb_spec (folder x) f) as [Hx|Hx].
  - split; [done|]. by inversion 1.
  - rewrite IH. split; [by constructor|by inversion 1].
Qed.

(** X1.  [get_lesson_by_folder] returns the first lesson of the catalog
    whose folder is the one asked for, and [None] exactly when no lesson
    of the catalog has that folder. *)
Theorem get_lesson_by_folder_first (m : LessonMetadata) (f : string) :
  (∀ l, get_lesson_by_folder m f = Some l ↔
        ∃ before after, lessons m = before ++ l :: after ∧ folder l = f ∧
                        Forall (λ x, folder x ≠ f) before) ∧
  (get_lesson_by_folder m f = None ↔ Forall (λ x, folder x ≠ f) (lessons m)).
Proof.
  split; [intros l; apply first_with_folder_Some|apply first_with_folder_None].
Qed.

(** The count of a key after the loop of [get_statistics] has run over
    [ls], starting from the dict [acc]. *)
Lemma foldl_count_module (ls : list Lesson) (acc : gmap string nat) (k : string) :
  foldl count_module acc ls !! k =
    match acc !! k, length (filter (λ l, module l = k) ls) with
    | None, 0 => None
    | None, c => Some c
    | Some a, c => Some (a + c)
    end.
Proof.
  revert acc. induction ls as [|x ls IH]; intros acc; cbn [foldl].
  - rewrite filter_nil. cbn. destruct (acc !! k); [f_equal; lia|done].
  - rewrite IH, filter_cons. unfold count_module.
    destruct (decide (module x = k)) as [->|Hne].
    + rewrite lookup_alter_eq. cbn [length].
      destruct (acc !! k) as [a|] eqn:Ha.
      * rewrite Ha. cbn. f_equal. lia.
      * rewrite lookup_insert_eq. cbn. done.
    + rewrite lookup_alter_ne by done.
      destruct (acc !! module x); [done|]. by rewrite lookup_insert_ne.
Qed.

(** X2.  In the [modules] dict of [get_statistics] the count of a
    module is the number of lessons [get_lessons_by_module] returns for
    it, and a module without lessons has no key. *)
Theorem get_statistics_module_count (m : LessonMetadata) (day k : string) :
  modules (get_statistics m day) !! k =
    match length (get_lessons_by_module m k) with
    | 0 => None
    | c => Some c
    end.
Proof.
  unfold get_statistics, get_lessons_by_module. cbn.
  by rewrite foldl_count_module, lookup_empty.
Qed.

Lemma module_total_insert (counts : gmap string nat) (k : string) (n : nat) :
  counts !! k = None → module_total (<[k := n]> counts) = n + module_total counts.
Proof.
  intros Hk. unfold module_total.
  rewrite map_fold_insert_L; [done| |done]. intros. lia.
Qed.

Lemma module_total_count_module (counts : gmap string nat) (lesson : Lesson) :
  module_total (count_module counts lesson) = S (module_total counts).
Proof.
  unfold count_module. destruct (counts !! module lesson) as [a|] eqn:Ha.
  - rewrite <- (insert_delete_id counts (module lesson) a) at 1 by done.
    rewrite <- (insert_delete_id counts (module lesson) a) at 2 by done.
    rewrite alter_insert_eq.
    rewrite !module_total_insert by apply lookup_delete_eq. done.
  - rewrite alter_insert_eq. rewrite !module_total_insert by done. done.
Qed.

(** X3.  The counts of the [modules] dict of [get_statistics] add up
    to [total_lessons]. *)
Theorem get_statistics_modules_add_up (m : LessonMetadata) (day : string) :
  module_total (modules (get_statistics m day)) = total_lessons (get_statistics m day).
Proof.
  unfold get_statistics. cbn.
  assert (∀ ls acc, module_total (foldl count_module acc ls)
                    = length ls + module_total acc) as Hgen.
  { induction ls as [|x ls IH]; intros acc; cbn; [done|].
    rewrite IH, module_total_count_module. lia. }
  rewrite Hgen. unfold module_total. rewrite map_fold_empty. lia.
Qed.

Lemma check_sync_status_foldl (ls : list Lesson) (day : string)
    (synced needs : list Lesson) :
  foldl (λ acc lesson,
           if decide (last_synced lesson = day)
           then (acc.1 ++ [lesson], acc.2)
           else (acc.1, acc.2 ++ [lesson]))
        (synced, needs) ls
  = (synced ++ filter (λ l, last_synced l = day) ls,
     needs ++ filter (λ l, last_synced l ≠ day) ls).
Proof.
  revert synced needs. induction ls as [|x ls IH]; intros synced needs; cbn [foldl].
  - by rewrite !filter_nil, !app_nil_r.
  - rewrite !filter_cons. destruct (decide (last_synced x = day)) as [Hx|Hx]; cbn.
    + rewrite IH. destruct (decide (last_synced x ≠ day)); [done|].
      by rewrite <- app_assoc.
    + rewrite IH. destruct (decide (last_synced x ≠ day)); [|done].
      by rewrite <- app_assoc.
Qed.

(** X4.  [check_sync_status] splits the catalog, in its order, into
    the lessons whose [last_synced] is today and the others; the first
    list has as many lessons as [get_statistics] counts as synced today,
    and the two lists together have as many as the catalog. *)
Theorem check_sync_status_partition (m : LessonMetadata) (day : string) :
  check_sync_status m day
    = (filter (λ l, last_synced l = day) (lessons m),
       filter (λ l, last_synced l ≠ day) (lessons m)) ∧
  length (check_sync_status m day).1 = lessons_synced_today (get_statistics m day) ∧
  length (check_sync_status m day).1 + length (check_sync_status m day).2
    = length (lessons m).
Proof.
  unfold check_sync_status. rewrite check_sync_status_foldl. cbn.
  split_and!; [done|done|].
  induction (lessons m) as [|x ls IH]; [done|].
  rewrite !filter_cons. destruct (decide (last_synced x = day)), (decide (last_synced x ≠ day));
    cbn; try done; lia.
Qed.

End CatalogQueries.

(* ===================================================================== *)
(** * The catalog after a batch sync                                    *)
(* ===================================================================== *)

Section BatchFacts.
Context `{NameMatcher}.

(** What one [sync_lesson] does to the catalog in memory and to its file. *)
Lemma sync_lesson_catalog (E : Env) (i : nat) (lesson : Lesson) (w : World) :
  let r := sync_lesson E i lesson w in
  (r.1.1 = false ∧ w_metadata r.2 = w_metadata w ∧ w_catalog r.2 = w_catalog w) ∨
  (r.1.1 = true ∧
   w_metadata r.2 = mkLessonMetadata
     (alter (set_last_synced (today E)) i (lessons (w_metadata w)))
     (last_updated (w_metadata w)) (version (w_metadata w))
     (preservation_patterns (w_metadata w)) ∧
   w_catalog r.2 = save (w_metadata r.2)).
Proof.
  cbn. unfold sync_lesson. destruct (negb _); [by left|].
  destruct (run_script _ _ _) as [[success output] t'].
  destruct success; [right|left]; done.
Qed.

Lemma sync_each_cons (E : nat → Env) (i : nat) (lesson : Lesson)
    (rest : list Lesson) (w : World) :
  sync_each E i (lesson :: rest) w =
    ((sync_lesson (E i) i lesson w).1.1
       :: (sync_each E (S i) rest (sync_lesson (E i) i lesson w).2).1,
     (sync_each E (S i) rest (sync_lesson (E i) i lesson w).2).2).
Proof.
  cbn [sync_each]. destruct (sync_lesson (E i) i lesson w) as [[success out] w'].
  cbn [fst snd]. destruct (sync_each E (S i) rest w') as [outcomes w'']. done.
Qed.

(** The catalog after the loop: the lesson at index [k] carries the day
    of its sync if that sync succeeded and is untouched otherwise. *)
Lemma sync_each_lessons (E : nat → Env) (todo : list Lesson) :
  ∀ (i : nat) (w : World) (k : nat),
    lessons (w_metadata (sync_each E i todo w).2) !! k =
      if decide (i ≤ k)
      then match (sync_each E i todo w).1 !! (k - i) with
           | Some true => set_last_synced (today (E k)) <$> lessons (w_metadata w) !! k
           | _ => lessons (w_metadata w) !! k
           end
      else lessons (w_metadata w) !! k.
Proof.
  induction todo as [|lesson rest IH]; intros i w k.
  - cbn. by destruct (decide _).
  - rewrite sync_each_cons. cbn [fst snd]. rewrite IH.
    pose proof (sync_lesson_catalog (E i) i lesson w) as Hstep. cbn in Hstep.
    destruct (decide (i = k)) as [<-|Hne].
    + rewrite decide_False by lia. rewrite decide_True by lia.
      rewrite Nat.sub_diag. cbn.
      destruct Hstep as [(-> & -> & _)|(-> & -> & _)]; cbn; [done|].
      by rewrite list_lookup_alter_eq.
    + assert (lessons (w_metadata (sync_lesson (E i) i lesson w).2) !! k
              = lessons (w_metadata w) !! k) as ->.
      { destruct Hstep as [(_ & -> & _)|(_ & -> & _)]; cbn; [done|].
        by rewrite list_lookup_alter_ne. }
      destruct (decide (S i ≤ k)), (decide (i ≤ k)); try lia; [|done].
      replace (k - i) with (S (k - S i)) by lia. done.
Qed.

(** X5.  After [sync_all_lessons] the lesson at index [k] carries the
    day of its own sync if that sync succeeded and is as it was
    otherwise. *)
Theorem sync_all_lessons_dates (E : nat → Env) (w : World) (k : nat) :
  lessons (w_metadata (sync_all_lessons E w).2) !! k =
    match (sync_each E 0 (lessons (w_metadata w)) w).1 !! k with
    | Some true => set_last_synced (today (E k)) <$> lessons (w_metadata w) !! k
    | _ => lessons (w_metadata w) !! k
    end.
Proof.
  unfold sync_all_lessons. rewrite sync_loop_each. cbn.
  rewrite sync_each_lessons. rewrite decide_True by lia. by rewrite Nat.sub_0_r.
Qed.

Lemma sync_each_frame (E : nat → Env) (todo : list Lesson) :
  ∀ (i : nat) (w : World),
    last_updated (w_metadata (sync_each E i todo w).2) = last_updated (w_metadata w) ∧
    version (w_metadata (sync_each E i todo w).2) = version (w_metadata w) ∧
    preservation_patterns (w_metadata (sync_each E i todo w).2)
      = preservation_patterns (w_metadata w).
Proof.
  induction todo as [|lesson rest IH]; intros i w; [done|].
  rewrite sync_each_cons. cbn [fst snd].
  destruct (IH (S i) (sync_lesson (E i) i lesson w).2) as (-> & -> & ->).
  pose proof (sync_lesson_catalog (E i) i lesson w) as Hstep. cbn in Hstep.
  destruct Hstep as [(_ & -> & _)|(_ & -> & _)]; done.
Qed.

Lemma sync_each_catalog_length (E : nat → Env) (todo : list Lesson) :
  ∀ (i : nat) (w : World),
    length (lessons (w_metadata (sync_each E i todo w).2))
      = length (lessons (w_metadata w)).
Proof.
  induction todo as [|lesson rest IH]; intros i w; [done|].
  rewrite sync_each_cons. cbn [fst snd]. rewrite IH.
  pose proof (sync_lesson_catalog (E i) i lesson w) as Hstep. cbn in Hstep.
  destruct Hstep as [(_ & -> & _)|(_ & -> & _)]; [done|].
  cbn. by rewrite length_alter.
Qed.

(** X6.  [sync_all_lessons] changes nothing of the catalog in memory
    but [last_synced] fields: [last_updated], the version, the patterns,
    the number and order of the lessons and their other fields stay. *)
Theorem sync_all_lessons_catalog_frame (E : nat → Env) (w : World) :
  let m := w_metadata w in
  let m' := w_metadata (sync_all_lessons E w).2 in
  last_updated m' = last_updated m ∧
  version m' = version m ∧
  preservation_patterns m' = preservation_patterns m ∧
  Forall2 differs_in_last_synced_only (lessons m) (lessons m').
Proof.
  cbn. unfold sync_all_lessons. rewrite sync_loop_each. cbn [snd].
  destruct (sync_each_frame E (lessons (w_metadata w)) 0 w) as (-> & -> & ->).
  split_and!; [done..|].
  apply Forall2_same_length_lookup_2.
  - by rewrite sync_each_catalog_length.
  - intros k l l' Hl Hl'. rewrite sync_each_lessons, Hl in Hl'.
    rewrite decide_True in Hl' by lia. unfold differs_in_last_synced_only.
    destruct (_ !! (k - 0)) as [[]|]; cbn in Hl'; injection Hl' as <-; by destruct l.
Qed.
End BatchFacts.

Section BatchFacts2.
Context `{NameMatcher}.

Lemma sync_each_catalog_file (E : nat → Env) (todo : list Lesson) :
  ∀ (i : nat) (w : World),
    w_catalog w = save (w_metadata w) →
    w_catalog (sync_each E i todo w).2 = save (w_metadata (sync_each E i todo w).2).
Proof.
  induction todo as [|lesson rest IH]; intros i w Hw; [done|].
  rewrite sync_each_cons. cbn [fst snd]. apply IH.
  pose proof (sync_lesson_catalog (E i) i lesson w) as Hstep. cbn in Hstep.
  destruct Hstep as [(_ & -> & ->)|(_ & _ & ->)]; done.
Qed.

(** X7.  If the catalog file holds the catalog in memory before
    [sync_all_lessons], it does so after it. *)
Theorem sync_all_lessons_catalog_file (E : nat → Env) (w : World) :
  w_catalog w = save (w_metadata w) →
  w_catalog (sync_all_lessons E w).2 = save (w_metadata (sync_all_lessons E w).2).
Proof.
  intros Hw. unfold sync_all_lessons. rewrite sync_loop_each. cbn [snd].
  by apply sync_each_catalog_file.
Qed.

Lemma sync_each_all_missing (E : nat → Env) (todo : list Lesson) :
  ∀ (i : nat) (w : World),
    Forall (λ l, Lesson_exists (w_tree w) l = false) todo →
    sync_each E i todo w = (replicate (length todo) false, w).
Proof.
  induction todo as [|lesson rest IH]; intros i w Hall; [done|].
  inversion Hall as [|?? Hl Hrest]; subst.
  rewrite sync_each_cons. unfold sync_lesson at 1 2 3. rewrite Hl. cbn.
  by rewrite IH.
Qed.

Lemma successes_all_failed (n : nat) : successes (replicate n false) = 0.
Proof. induction n as [|n IH]; [done|exact IH]. Qed.

Lemma failures_all_failed (n : nat) : failures (replicate n false) = n.
Proof.
  induction n as [|n IH]; [done|].
  change (S (failures (replicate n false)) = S n). by rewrite IH.
Qed.

(** X8.  When no lesson of the catalog has its directory,
    [sync_all_lessons] counts every lesson as failed and changes nothing. *)
Theorem sync_all_lessons_all_missing (E : nat → Env) (w : World) :
  Forall (λ l, Lesson_exists (w_tree w) l = false) (lessons (w_metadata w)) →
  sync_all_lessons E w = ((0, length (lessons (w_metadata w))), w).
Proof.
  intros Hall. unfold sync_all_lessons. rewrite sync_loop_each.
  rewrite sync_each_all_missing by done. cbn [fst snd].
  by rewrite successes_all_failed, failures_all_failed.
Qed.

(** ** The module loop *)

Lemma module_entries_imap (ls : list Lesson) (md : string) (g : nat → nat) :
  (filter (λ e : nat * Lesson, module e.2 = md) (imap (λ i l, (g i, l)) ls)).*2
    = filter (λ l, module l = md) ls.
Proof.
  revert g. induction ls as [|x ls IH]; intros g; [done|].
  rewrite imap_cons, !filter_cons. cbn.
  destruct (decide (module x = md)); cbn; f_equal; apply (IH (g ∘ S)).
Qed.

Lemma module_entries_lessons (m : LessonMetadata) (md : string) :
  (module_entries m md).*2 = get_lessons_by_module m md.
Proof. apply (module_entries_imap _ _ id). Qed.

Lemma module_entries_lookup (m : LessonMetadata) (md : string) (i : nat) (l : Lesson) :
  (i, l) ∈ module_entries m md ↔ lessons m !! i = Some l ∧ module l = md.
Proof.
  unfold module_entries. rewrite list_elem_of_filter. cbn.
  rewrite elem_of_lookup_imap. split.
  - intros [Hm (j & y & [= -> ->] & Hj)]. done.
  - intros [Hi Hm]. split; [done|]. by exists i, l.
Qed.

Lemma sync_module_loop_total (E : nat → Env) (todo : list (nat * Lesson)) :
  ∀ (k s f : nat) (w : World),
    (sync_module_loop E k todo s f w).1.1 + (sync_module_loop E k todo s f w).1.2
      = s + f + length todo.
Proof.
  induction todo as [|[i lesson] rest IH]; intros k s f w; cbn; [lia|].
  destruct (sync_lesson (E k) i lesson w) as [[success out] w'].
  destruct success; rewrite IH; lia.
Qed.

Lemma sync_module_loop_untouched (E : nat → Env) (todo : list (nat * Lesson)) :
  ∀ (k s f : nat) (w : World) (j : nat),
    j ∉ todo.*1 →
    lessons (w_metadata (sync_module_loop E k todo s f w).2) !! j
      = lessons (w_metadata w) !! j.
Proof.
  induction todo as [|[i lesson] rest IH]; intros k s f w j Hj; cbn; [done|].
  cbn in Hj. apply not_elem_of_cons in Hj as [Hji Hj].
  pose proof (sync_lesson_catalog (E k) i lesson w) as Hstep. cbn in Hstep.
  destruct (sync_lesson (E k) i lesson w) as [[success out] w']. cbn in Hstep.
  assert (lessons (w_metadata w') !! j = lessons (w_metadata w) !! j) as <-.
  { destruct Hstep as [(_ & -> & _)|(_ & -> & _)]; [done|].
    cbn. by rewrite list_lookup_alter_ne. }
  destruct success; by apply IH.
Qed.

(** X10.  When [sync_module] runs its loop, the two counters it prints
    add up to the number of lessons of the chosen module; and whatever
    the choice and the answer, the lessons of the other modules are left
    as they are in the catalog. *)
Theorem sync_module_counts_and_frame (E : nat → Env) (choice : string)
    (confirmed : bool) (w : World) :
  (∀ s f, (sync_module E choice confirmed w).1 = Some (s, f) →
          s + f = length (get_lessons_by_module (w_metadata w) choice)) ∧
  (∀ j l, lessons (w_metadata w) !! j = Some l → module l ≠ choice →
          lessons (w_metadata (sync_module E choice confirmed w).2) !! j = Some l).
Proof.
  unfold sync_module. destruct (_ && _); [|by split].
  pose proof (sync_module_loop_total E (module_entries (w_metadata w) choice) 0 0 0 w) as Htotal.
  pose proof (sync_module_loop_untouched E (module_entries (w_metadata w) choice) 0 0 0 w)
    as Hkeep.
  destruct (sync_module_loop E 0 (module_entries (w_metadata w) choice) 0 0 w)
    as [[s' f'] w'].
  cbn [fst snd] in *. split.
  - intros s f [= <- <-]. rewrite Htotal, <- module_entries_lessons, length_fmap. lia.
  - intros j l Hj Hm. rewrite Hkeep; [done|].
    intros ([i l'] & -> & Hin)%list_elem_of_fmap. cbn in Hj.
    apply module_entries_lookup in Hin as [Hi Hmod]. congruence.
Qed.

End BatchFacts2.

(* ===================================================================== *)
(** * The file system operations of the scripts                         *)
(* ===================================================================== *)

Section FsFacts.

Lemma ancestors_prefix (p q : path) : q ∈ Fs.ancestors p ↔ q `prefix_of` p.
Proof.
  revert q. induction p as [|a p IH]; intros q; cbn.
  - rewrite list_elem_of_singleton. split; [intros ->; done|].
    intros [k Hk]. symmetry in Hk. by apply app_eq_nil in Hk as [-> _].
  - rewrite elem_of_cons, list_elem_of_fmap. split.
    + intros [->|(r & -> & Hr)]; [apply prefix_nil|].
      apply IH in Hr. by apply prefix_cons.
    + destruct q as [|b q]; [by left|]. intros Hpre. right.
      pose proof (prefix_cons_inv_1 _ _ _ _ Hpre) as ->.
      apply prefix_cons_inv_2 in Hpre. exists q. split; [done|]. by apply IH.
Qed.

Lemma lookup_make_dirs (ds : list path) (t : tree) (q : path) :
  foldr (λ d acc, match d with
                  | [] => acc
                  | _ => <[d := Dir]> acc
                  end) t ds !! q
  = if decide (q ∈ ds ∧ q ≠ []) then Some Dir else t !! q.
Proof.
  induction ds as [|d ds IH]; cbn.
  - rewrite decide_False; [done|]. by intros [?%elem_of_nil _].
  - destruct d as [|a d].
    + rewrite IH. destruct (decide (q ∈ ds ∧ q ≠ [])) as [[??]|Hn].
      * rewrite decide_True; [done|]. split; [by right|done].
      * rewrite decide_False; [done|]. intros [[->|?]%elem_of_cons ?]; tauto.
    + destruct (decide (q = a :: d)) as [->|Hne].
      * rewrite lookup_insert_eq. rewrite decide_True; [done|]. split; [by left|done].
      * rewrite lookup_insert_ne by done. rewrite IH.
        destruct (decide (q ∈ ds ∧ q ≠ [])) as [[??]|Hn].
        -- rewrite decide_True; [done|]. split; [by right|done].
        -- rewrite decide_False; [done|]. intros [[->|?]%elem_of_cons ?]; tauto.
Qed.

Lemma mkdir_p_lookup (p : path) (t t' : tree) (q : path) :
  Fs.mkdir_p p t = Some t' →
  t' !! q = if decide (q `prefix_of` p ∧ q ≠ []) then Some Dir else t !! q.
Proof.
  unfold Fs.mkdir_p. destruct (existsb _ _); [done|]. intros [= <-].
  rewrite lookup_make_dirs.
  destruct (decide (q ∈ Fs.ancestors p ∧ q ≠ [])) as [[Hq ?]|Hn].
  - apply ancestors_prefix in Hq. by rewrite decide_True.
  - rewrite decide_False; [done|]. intros [Hq ?]. apply Hn.
    split; [by apply ancestors_prefix|done].
Qed.


(** What [cp -r] leaves at a path: the copied entry if the path is the
    destination of one that is not blocked, the old entry otherwise. *)
Lemma copy_into_lookup (dst : path) (src t : tree) (r : path) :
  (Fs.copy_into dst src t).1 !! (dst ++ r) =
    match src !! r with
    | Some n => if Fs.blocked dst src t r then t !! (dst ++ r) else Some n
    | None => t !! (dst ++ r)
    end.
Proof.
  unfold Fs.copy_into. cbn [fst]. rewrite lookup_union, lookup_kmap.
  rewrite map_lookup_filter. destruct (src !! r) as [n|]; cbn -[Fs.blocked].
  - destruct (Fs.blocked dst src t r) eqn:Hb.
    + rewrite option_guard_False.
      * by rewrite (left_id None _).
      * intros Hn. apply Hn. exact I.
    + rewrite option_guard_True.
      * by destruct (t !! (dst ++ r)).
      * intros Hn. exact Hn.
  - by rewrite (left_id None _).
  - apply _.
Qed.

Lemma copy_into_lookup_outside (dst : path) (src t : tree) (p : path) :
  ¬ dst `prefix_of` p → (Fs.copy_into dst src t).1 !! p = t !! p.
Proof.
  intros Hp. unfold Fs.copy_into. cbn [fst]. apply lookup_union_r.
  apply lookup_kmap_None; [apply _|]. intros r ->. destruct Hp. by exists r.
Qed.

End FsFacts.

(* ===================================================================== *)
(** * What [sync-lesson.sh] leaves alone                                *)
(* ===================================================================== *)

Section ScriptIsolation.
Context `{NameMatcher}.

Lemma prefix_of_app_trans (a b p : path) : (a ++ b) `prefix_of` p → a `prefix_of` p.
Proof. intros [k ->]. exists (b ++ k). by rewrite app_assoc. Qed.




Lemma remove_old_content_lookup (LESSON_PATH : path) (t : tree) (p : path) :
  SyncScript.remove_old_content LESSON_PATH t !! p =
    if SyncScript.doomed LESSON_PATH p then None else t !! p.
Proof.
  unfold SyncScript.remove_old_content. rewrite map_lookup_filter.
  destruct (t !! p) as [n|]; cbn -[SyncScript.doomed]; [|by destruct (SyncScript.doomed _ _)].
  destruct (SyncScript.doomed LESSON_PATH p) eqn:Hd.
  - rewrite option_guard_False; [done|]. cbn -[SyncScript.doomed]. congruence.
  - rewrite option_guard_True; [done|]. cbn -[SyncScript.doomed]. congruence.
Qed.






End ScriptIsolation.

Section BatchIsolation.
Context `{NameMatcher}.

Lemma sync_lesson_not_run (E : Env) (i : nat) (lesson : Lesson) (w : World) :
  Lesson_exists (w_tree w) lesson = false ∨ w_tree w !! sync_script_path = None →
  sync_lesson E i lesson w =
    ((false, (sync_lesson E i lesson w).1.2), w).
Proof.
  intros Hno. unfold sync_lesson.
  destruct (Lesson_exists (w_tree w) lesson) eqn:Hex; cbn [negb]; [|done].
  destruct Hno as [?|Hscript]; [done|].
  unfold run_script. rewrite Hscript. cbn. by destruct w.
Qed.

Lemma sync_each_not_run (E : nat → Env) (todo : list Lesson) :
  ∀ (i : nat) (w : World),
    Forall (λ l, Lesson_exists (w_tree w) l = false) todo ∨
    w_tree w !! sync_script_path = None →
    sync_each E i todo w = (replicate (length todo) false, w).
Proof.
  induction todo as [|lesson rest IH]; intros i w Hno; [done|].
  rewrite sync_each_cons.
  rewrite (sync_lesson_not_run (E i) i lesson w).
  - cbn [fst snd]. rewrite IH; [done|].
    destruct Hno as [Hall|?]; [left; by inversion Hall|by right].
  - destruct Hno as [Hall|?]; [left; by inversion Hall|by right].
Qed.

(** X9.  Without the sync script in place no lesson is synced:
    [sync_all_lessons] counts every lesson as failed and changes nothing,
    in the working tree, in the catalog or in its file. *)
Theorem sync_all_lessons_script_missing (E : nat → Env) (w : World) :
  w_tree w !! sync_script_path = None →
  sync_all_lessons E w = ((0, length (lessons (w_metadata w))), w).
Proof.
  intros Hscript. unfold sync_all_lessons. rewrite sync_loop_each.
  rewrite sync_each_not_run by (by right). cbn [fst snd].
  by rewrite successes_all_failed, failures_all_failed.
Qed.




End BatchIsolation.

(* ===================================================================== *)
(** * The backup loop of [sync-lesson.sh]                               *)
(* ===================================================================== *)

Section BackupFacts.
Context `{NameMatcher}.

Lemma lookup_subtree (root : path) (t : tree) (r : path) :
  Fs.subtree root t !! r = if decide (r = []) then None else t !! (root ++ r).
Proof.
  unfold Fs.subtree. revert r.
  apply (map_fold_weak_ind (λ acc m, ∀ r : path,
           acc !! r = if decide (r = []) then None else m !! (root ++ r))).
  - intros r. rewrite !lookup_empty. by destruct (decide _).
  - intros p n m acc Hp IH r.
    destruct (decide (root `prefix_of` p ∧ p ≠ root)) as [[[k ->] Hne]|Hno].
    + unfold Fs.relative_to. rewrite drop_app_length.
      destruct (decide (r = k)) as [->|Hrk].
      * rewrite !lookup_insert_eq. destruct (decide (k = [])) as [->|]; [|done].
        by rewrite app_nil_r in Hne.
      * rewrite !lookup_insert_ne; [apply IH| |done].
        intros Heq. by apply app_inv_head in Heq.
    + rewrite IH. destruct (decide (r = [])) as [->|Hr]; [done|].
      rewrite lookup_insert_ne; [done|]. intros ->. apply Hno. split.
      * by apply prefix_app_r.
      * intros Heq. rewrite <- (app_nil_r root) in Heq at 2.
        by apply app_inv_head in Heq.
Qed.

Lemma lookup_dirs_map (ds : list path) (r : path) :
  (list_to_map (map (λ d, (d, Dir)) ds) : tree) !! r
  = if decide (r ∈ ds) then Some Dir else None.
Proof.
  induction ds as [|d ds IH]; cbn.
  - rewrite lookup_empty. rewrite decide_False; [done|]. apply not_elem_of_nil.
  - destruct (decide (r = d)) as [->|Hne].
    + rewrite lookup_insert_eq. rewrite decide_True; [done|]. by left.
    + rewrite lookup_insert_ne by done. rewrite IH.
      destruct (decide (r ∈ ds)).
      * rewrite decide_True; [done|]. by right.
      * rewrite decide_False; [done|]. by intros [?|?]%elem_of_cons.
Qed.

Lemma cp_parents_unfold (backup src : path) (t : tree) :
  SyncScript.cp_parents backup src t = (Fs.copy_into backup (cp_source backup src t) t).1.
Proof. done. Qed.

Lemma cp_source_lookup (backup src : path) (t : tree) (r : path) :
  cp_source backup src t !! r =
    if decide (src `prefix_of` r ∧ ¬ (backup ++ src) `prefix_of` r)
    then match t !! r with
         | Some n => Some n
         | None => None
         end
    else if decide (r `prefix_of` src ∧ r ≠ [] ∧ r ≠ src) then Some Dir else None.
Proof.
  unfold cp_source. rewrite lookup_union, map_lookup_filter, lookup_dirs_map.
  destruct (decide (src `prefix_of` r ∧ ¬ (backup ++ src) `prefix_of` r)) as [Hin|Hout].
  - destruct (t !! r) as [n|] eqn:Hr; cbn.
    + rewrite option_guard_True by done. cbn. by destruct (decide _).
    + destruct Hin as [Hpre _].
      rewrite decide_False; [done|]. rewrite list_elem_of_filter, ancestors_prefix.
      intros [[_ Hne] Hr']. apply Hne. by apply (anti_symm prefix).
  - destruct (t !! r) as [n|]; cbn; rewrite ?option_guard_False by done; cbn;
      rewrite (left_id None _).
    all: destruct (decide (r `prefix_of` src ∧ r ≠ [] ∧ r ≠ src)) as [(? & ? & ?)|Hn].
    all: try (rewrite decide_True; [done|]; rewrite list_elem_of_filter, ancestors_prefix; done).
    all: rewrite decide_False; [done|]; rewrite list_elem_of_filter, ancestors_prefix;
      intros [[??]?]; by apply Hn.
Qed.

(** Every entry handed to the copy lies at or below the first name of
    the source. *)
Lemma cp_source_head (backup src : path) (t : tree) (r : path) (a : string) :
  head src = Some a → is_Some (cp_source backup src t !! r) → head r = Some a.
Proof.
  intros Ha. rewrite cp_source_lookup.
  destruct (decide _) as [[[k ->] _]|_].
  - intros _. destruct src; [done|]. done.
  - destruct (decide _) as [([k ->] & Hne & _)|_]; [|by intros [??]].
    intros _. destruct r; [done|]. done.
Qed.

Lemma find_name_elem (t : tree) (root : path) (pattern : string) (src : path) :
  src ∈ SyncScript.find_name t root pattern ↔
  is_Some (t !! src) ∧ root `prefix_of` src ∧ fnmatch (Fs.basename src) pattern = true.
Proof.
  unfold SyncScript.find_name. rewrite list_elem_of_fmap. split.
  - intros ([q n] & -> & Hin). apply elem_of_map_to_list in Hin.
    apply map_lookup_filter_Some in Hin as [Hq [??]]. cbn in *. eauto.
  - intros ([n Hn] & ? & ?). exists (src, n). split; [done|].
    apply elem_of_map_to_list, map_lookup_filter_Some. done.
Qed.

(** An invariant of the tree that every [cp --parents] of a source below
    the lesson directory keeps is kept by the whole backup loop. *)
Lemma backup_custom_files_ind (P : tree → Prop) (LESSON_PATH BACKUP_DIR : path) :
  (∀ t src, P t → LESSON_PATH `prefix_of` src →
            P (SyncScript.cp_parents BACKUP_DIR src t)) →
  ∀ t, P t → P (SyncScript.backup_custom_files LESSON_PATH BACKUP_DIR t).
Proof.
  intros Hstep. unfold SyncScript.backup_custom_files.
  generalize SyncScript.PRESERVE_PATTERNS as patterns.
  induction patterns as [|pattern patterns IH]; intros t Ht; cbn [foldl]; [done|].
  apply IH. unfold SyncScript.backup_pattern.
  assert (Forall (λ src, LESSON_PATH `prefix_of` src)
            (SyncScript.find_name t LESSON_PATH pattern)) as Hsrcs.
  { apply Forall_forall. intros src Hsrc. by apply find_name_elem in Hsrc as (_ & ? & _). }
  revert Hsrcs. generalize (SyncScript.find_name t LESSON_PATH pattern) as srcs.
  intros srcs. revert t Ht. induction srcs as [|src srcs IHs]; intros t Ht Hall; cbn [foldl]; [done|].
  inversion Hall; subst. apply IHs; [|done]. by apply Hstep.
Qed.

End BackupFacts.

(* ===================================================================== *)
(** * The content of a lesson after a successful sync                   *)
(* ===================================================================== *)

Section SyncContent.
Context `{NameMatcher}.

(** The steps of a run of the script that returns 0. *)
Lemma sync_single_lesson_success (E : Env) (LESSON_FOLDER : string) (t t' : tree) :
  SyncScript.sync_single_lesson E LESSON_FOLDER t = (t', true) →
  let LESSON_PATH := ["lessons"; LESSON_FOLDER] in
  let BACKUP_DIR := LESSON_PATH ++ [".custom-changes"; "backup-" +:+ stamp E] in
  let files := Fs.rm_rf [".git"] (default ∅ (remote E (SyncScript.discover_source
                  (t !! (LESSON_PATH ++ ["LESSON_INFO.md"]))))) in
  ∃ t1 t5,
    Fs.is_dir t LESSON_PATH = true ∧
    Fs.mkdir_p BACKUP_DIR t = Some t1 ∧
    let t4 := (Fs.copy_into LESSON_PATH files
                 (SyncScript.remove_old_content LESSON_PATH
                    (SyncScript.backup_custom_files LESSON_PATH BACKUP_DIR t1))).1 in
    (t5 = SyncScript.restore BACKUP_DIR LESSON_PATH t4 ∨ t5 = t4) ∧
    SyncScript.update_sync_date E LESSON_PATH t5 = Some t'.
Proof.
  unfold SyncScript.sync_single_lesson. cbn zeta.
  destruct (Fs.is_dir t _) eqn:Hdir; [|by intros [= _ ?]]. cbn [negb].
  destruct (bool_decide _); [by intros [= _ ?]|].
  destruct (Fs.mkdir_p _ t) as [t1|] eqn:Hmk; [|by intros [= _ ?]].
  destruct (Fs.copy_into _ _ _) as [t4 copied] eqn:Hcopy.
  destruct copied; [|by intros [= _ ?]]. cbn [negb].
  destruct (SyncScript.update_sync_date _ _ _) as [t6|] eqn:Hup; [|by intros [= _ ?]].
  intros [= <-]. eexists t1, _. split; [done|]. split; [done|].
  rewrite Hcopy. cbn [fst]. split; [|exact Hup].
  destruct (Fs.is_dir t4 _); [by left|by right].
Qed.

Lemma rm_rf_lookup (d : path) (t : tree) (p : path) :
  Fs.rm_rf d t !! p = if decide (d `prefix_of` p) then None else t !! p.
Proof.
  unfold Fs.rm_rf. rewrite map_lookup_filter.
  destruct (t !! p) as [n|]; cbn; [|by destruct (decide _)].
  destruct (decide (d `prefix_of` p)).
  - by rewrite option_guard_False by (cbn; tauto).
  - by rewrite option_guard_True.
Qed.

Section Run.
Variables (E : Env) (LESSON_FOLDER : string) (t : tree).
Let LESSON_PATH : path := ["lessons"; LESSON_FOLDER].
Let BACKUP_DIR : path := LESSON_PATH ++ [".custom-changes"; "backup-" +:+ stamp E].
Let upstream : tree :=
  default ∅ (remote E (SyncScript.discover_source (t !! (LESSON_PATH ++ ["LESSON_INFO.md"])))).

(** There is no backup with the stamp of this run yet. *)
Hypothesis fresh : ∀ r, r ≠ [] → t !! (BACKUP_DIR ++ r) = None.
(** The upstream repository ships nothing named [.custom-changes]. *)
Hypothesis upstream_plain : ∀ r, upstream !! (".custom-changes" :: r) = None.

Lemma backup_dir_after_mkdir (t1 : tree) (r : path) :
  Fs.mkdir_p BACKUP_DIR t = Some t1 → r ≠ [] → t1 !! (BACKUP_DIR ++ r) = None.
Proof.
  intros Hmk Hr. rewrite (mkdir_p_lookup _ _ _ _ Hmk).
  rewrite decide_False; [by apply fresh|]. intros [Hpre _].
  apply prefix_length in Hpre. rewrite length_app in Hpre.
  destruct r; [done|]. cbn in Hpre. lia.
Qed.

Lemma backup_dir_heads (t1 : tree) (r : path) :
  Fs.mkdir_p BACKUP_DIR t = Some t1 →
  is_Some (SyncScript.backup_custom_files LESSON_PATH BACKUP_DIR t1 !! (BACKUP_DIR ++ r)) →
  r = [] ∨ head r = Some "lessons".
Proof.
  intros Hmk. revert r.
  apply (backup_custom_files_ind
           (λ t2, ∀ r, is_Some (t2 !! (BACKUP_DIR ++ r)) → r = [] ∨ head r = Some "lessons")).
  - intros t2 src IH [k ->] r. rewrite cp_parents_unfold, copy_into_lookup.
    destruct (cp_source _ _ _ !! r) as [n|] eqn:Hsrc; [|apply IH].
    intros _. right.
    apply (cp_source_head BACKUP_DIR (LESSON_PATH ++ k) t2 r "lessons"); [reflexivity|].
    by rewrite Hsrc.
  - intros r [n Hn]. destruct r as [|a r]; [by left|].
    by rewrite (backup_dir_after_mkdir _ _ Hmk) in Hn.
Qed.

(** After the fresh content is copied in, what lies in the backup
    directory of the run is below its [lessons] entry. *)
Lemma backup_dir_heads_after_copy (t1 : tree) (r : path) :
  Fs.mkdir_p BACKUP_DIR t = Some t1 →
  is_Some ((Fs.copy_into LESSON_PATH (Fs.rm_rf [".git"] upstream)
              (SyncScript.remove_old_content LESSON_PATH
                 (SyncScript.backup_custom_files LESSON_PATH BACKUP_DIR t1))).1
           !! (BACKUP_DIR ++ r)) →
  r = [] ∨ head r = Some "lessons".
Proof.
  intros Hmk. unfold BACKUP_DIR. rewrite <- app_assoc, copy_into_lookup.
  rewrite rm_rf_lookup. cbn [app]. rewrite upstream_plain.
  destruct (decide _); rewrite remove_old_content_lookup;
    (destruct (SyncScript.doomed _ _); [by intros [??]|]);
    intros Hs; apply (backup_dir_heads t1 r Hmk); exact Hs.
Qed.

Lemma restore_skips (t1 : tree) (n : string) (rest : path) :
  Fs.mkdir_p BACKUP_DIR t = Some t1 →
  n ≠ "lessons" →
  let t4 := (Fs.copy_into LESSON_PATH (Fs.rm_rf [".git"] upstream)
               (SyncScript.remove_old_content LESSON_PATH
                  (SyncScript.backup_custom_files LESSON_PATH BACKUP_DIR t1))).1 in
  SyncScript.restore BACKUP_DIR LESSON_PATH t4 !! (LESSON_PATH ++ n :: rest)
    = t4 !! (LESSON_PATH ++ n :: rest).
Proof.
  intros Hmk Hn t4. unfold SyncScript.restore. rewrite copy_into_lookup.
  destruct (filter _ _ !! (n :: rest)) as [x|] eqn:Hx; [|done].
  apply map_lookup_filter_Some in Hx as [Hx _].
  rewrite lookup_subtree, decide_False in Hx by done.
  destruct (backup_dir_heads_after_copy t1 (n :: rest) Hmk) as [?|Hh].
  - unfold t4 in Hx. by rewrite Hx.
  - done.
  - injection Hh as Hh. congruence.
Qed.

End Run.
End SyncContent.

Section SyncContent2.
Context `{NameMatcher}.

Lemma update_sync_date_lookup (E : Env) (LESSON_PATH : path) (t t' : tree) (p : path) :
  SyncScript.update_sync_date E LESSON_PATH t = Some t' →
  p ≠ LESSON_PATH ++ ["LESSON_INFO.md"] →
  p ≠ LESSON_PATH ++ ["LESSON_INFO.md.bak"] →
  t' !! p = t !! p.
Proof.
  unfold SyncScript.update_sync_date. destruct (Fs.is_dir _ _); [done|].
  intros [= <-] Hinfo Hbak. rewrite lookup_delete_ne by done.
  destruct (t !! (LESSON_PATH ++ ["LESSON_INFO.md"])) as [[text|]|]; [|done..].
  by rewrite lookup_insert_ne.
Qed.


Lemma blocked_false (dst : path) (src t : tree) (r : path) :
  (∀ r', r' `prefix_of` r → Fs.clashes dst src t r' = false) →
  Fs.blocked dst src t r = false.
Proof.
  intros Hall. unfold Fs.blocked. apply not_true_iff_false.
  intros (r' & Hin & Hc)%existsb_exists.
  apply list_elem_of_In, ancestors_prefix in Hin. by rewrite Hall in Hc.
Qed.

Lemma doomed_inside (LESSON_PATH : path) (n : string) (rest : path) :
  SyncScript.doomed LESSON_PATH (LESSON_PATH ++ n :: rest)
  = negb (fnmatch n ".custom-changes") && negb (fnmatch n "LESSON_INFO.md").
Proof.
  unfold SyncScript.doomed. rewrite bool_decide_eq_true_2 by (by apply prefix_app_r).
  by rewrite relative_to_app.
Qed.

Lemma prefix_cons_head (a : string) (r rest : path) (k : path) :
  k `prefix_of` a :: rest → k = [] ∨ ∃ k', k = a :: k'.
Proof.
  destruct k as [|b k]; [by left|]. intros Hpre. right.
  pose proof (prefix_cons_inv_1 _ _ _ _ Hpre) as ->. eauto.
Qed.

Section Run.
Variables (E : Env) (LESSON_FOLDER : string) (t : tree).
Let LESSON_PATH : path := ["lessons"; LESSON_FOLDER].
Let BACKUP_DIR : path := LESSON_PATH ++ [".custom-changes"; "backup-" +:+ stamp E].
Let upstream : tree :=
  default ∅ (remote E (SyncScript.discover_source (t !! (LESSON_PATH ++ ["LESSON_INFO.md"])))).

Hypothesis fresh : ∀ r, r ≠ [] → t !! (BACKUP_DIR ++ r) = None.
Hypothesis upstream_plain : ∀ r, upstream !! (".custom-changes" :: r) = None.

(** X13.  A successful run of [sync-lesson.sh] puts at every path of the
    lesson directory whose first name is not [.custom-changes],
    [LESSON_INFO.md], [LESSON_INFO.md.bak], [lessons] or [.git] exactly
    what the upstream repository has there, and nothing where it has
    nothing; the run starts without a backup of its own stamp and the
    upstream repository has no [.custom-changes]. *)
Theorem sync_installs_upstream (t' : tree) (n : string) (rest : path) :
  literal_pattern ".custom-changes" →
  literal_pattern "LESSON_INFO.md" →
  n ∉ [".custom-changes"; "LESSON_INFO.md"; "LESSON_INFO.md.bak"; "lessons"; ".git"] →
  upstream !! [] = None →
  SyncScript.sync_single_lesson E LESSON_FOLDER t = (t', true) →
  t' !! (LESSON_PATH ++ n :: rest) = upstream !! (n :: rest).
Proof.
  intros Hcc Hinfo Hn Hroot Hrun.
  apply not_elem_of_cons in Hn as [Hn1 Hn]. apply not_elem_of_cons in Hn as [Hn2 Hn].
  apply not_elem_of_cons in Hn as [Hn3 Hn]. apply not_elem_of_cons in Hn as [Hn4 Hn].
  apply not_elem_of_cons in Hn as [Hn5 _].
  apply sync_single_lesson_success in Hrun as (t1 & t5 & Hdir & Hmk & Ht5 & Hup).
  fold LESSON_PATH BACKUP_DIR upstream in Hmk, Ht5, Hup.
  rewrite (update_sync_date_lookup _ _ _ _ _ Hup).
  2:{ intros Heq. apply app_inv_head in Heq. congruence. }
  2:{ intros Heq. apply app_inv_head in Heq. congruence. }
  assert (∀ k, SyncScript.remove_old_content LESSON_PATH
                 (SyncScript.backup_custom_files LESSON_PATH BACKUP_DIR t1)
               !! (LESSON_PATH ++ n :: k) = None) as Hgone.
  { intros k. rewrite remove_old_content_lookup, doomed_inside, Hcc, Hinfo.
    by rewrite !bool_decide_eq_false_2. }
  assert ((Fs.copy_into LESSON_PATH (Fs.rm_rf [".git"] upstream)
             (SyncScript.remove_old_content LESSON_PATH
                (SyncScript.backup_custom_files LESSON_PATH BACKUP_DIR t1))).1
          !! (LESSON_PATH ++ n :: rest) = upstream !! (n :: rest)) as H4.
  { rewrite copy_into_lookup, rm_rf_lookup.
    rewrite decide_False.
    2:{ intros Hpre. apply prefix_cons_inv_1 in Hpre. congruence. }
    destruct (upstream !! (n :: rest)) as [x|]; [|apply Hgone].
    rewrite blocked_false; [done|]. intros r' Hr'. unfold Fs.clashes.
    destruct (prefix_cons_head _ rest _ _ Hr') as [->|[k' ->]].
    - assert (Fs.rm_rf [".git"] upstream !! [] = None) as ->; [|done].
      rewrite rm_rf_lookup. destruct (decide ([".git"] `prefix_of` [])); [done|exact Hroot].
    - rewrite Hgone. by destruct (Fs.rm_rf _ _ !! _). }
  destruct Ht5 as [->| ->]; [|done].
  rewrite (restore_skips E LESSON_FOLDER t fresh upstream_plain t1 n rest Hmk Hn4).
  exact H4.
Qed.


End Run.
End SyncContent2.

(* ===================================================================== *)
(** * The backup of a successful sync                                   *)
(* ===================================================================== *)

Section BackupKeeps.
Context `{NameMatcher}.



Section Run.
Variables (E : Env) (LESSON_FOLDER : string) (t : tree) (n c : string).
Let LESSON_PATH : path := ["lessons"; LESSON_FOLDER].
Let BACKUP_DIR : path := LESSON_PATH ++ [".custom-changes"; "backup-" +:+ stamp E].
Let upstream : tree :=
  default ∅ (remote E (SyncScript.discover_source (t !! (LESSON_PATH ++ ["LESSON_INFO.md"])))).
Let q : path := LESSON_PATH ++ [n].

Hypothesis not_marker : n ≠ ".custom-changes".











Lemma backup_inv_weaken (t2 : tree) : backup_inv LESSON_PATH BACKUP_DIR q c true t2 → backup_inv LESSON_PATH BACKUP_DIR q c false t2.
Proof. intros (? & ? & ? & ? & ? & [?|[? ?]]); split_and!; auto. Qed.




Hypothesis fresh : ∀ r, r ≠ [] → t !! (BACKUP_DIR ++ r) = None.
Hypothesis upstream_plain : ∀ r, upstream !! (".custom-changes" :: r) = None.


End Run.
Section Kept.
Variables (E : Env) (LESSON_FOLDER : string) (t : tree).
Let LESSON_PATH : path := ["lessons"; LESSON_FOLDER].
Let BACKUP_DIR : path := LESSON_PATH ++ [".custom-changes"; "backup-" +:+ stamp E].
Let upstream : tree :=
  default ∅ (remote E (SyncScript.discover_source (t !! (LESSON_PATH ++ ["LESSON_INFO.md"])))).

Hypothesis fresh : ∀ r, r ≠ [] → t !! (BACKUP_DIR ++ r) = None.
Hypothesis upstream_plain : ∀ r, upstream !! (".custom-changes" :: r) = None.



End Kept.
End BackupKeeps.

(* ===================================================================== *)
(** * The script [add-lesson.sh]                                        *)
(* ===================================================================== *)

Section AddLesson.

Lemma clone_lookup_outside (E : Env) (url : string) (dst : path) (t : tree) (p : path) :
  ¬ p `prefix_of` dst → ¬ dst `prefix_of` p →
  AddScript.clone E url dst t !! p = t !! p.
Proof.
  intros Hp Hd. unfold AddScript.clone.
  destruct (remote E url) as [files|]; [|done].
  destruct (bool_decide _); [done|].
  destruct (Fs.mkdir_p dst t) as [t1|] eqn:Hmk; [|done].
  rewrite copy_into_lookup_outside by done.
  rewrite (mkdir_p_lookup _ _ _ _ Hmk). rewrite decide_False; [done|]. by intros [? _].
Qed.


(** The steps of a run of [add-lesson.sh] that exits with 0. *)
Lemma add_lesson_steps (E : Env) (SOURCE_REPO LESSON_NUM LESSON_NAME : string)
    (more : list string) (t t' : tree) :
  let FOLDER_NAME := "lesson" +:+ LESSON_NUM +:+ "_" +:+ LESSON_NAME in
  let LESSON_PATH := ["lessons"; FOLDER_NAME] in
  AddScript.add_lesson E (SOURCE_REPO :: LESSON_NUM :: LESSON_NAME :: more) t = (t', true) →
  ∃ t3,
    Fs.is_dir t LESSON_PATH = false ∧
    Fs.mkdir_p (LESSON_PATH ++ [".custom-changes"])
      (Fs.rm_rf (LESSON_PATH ++ [".git"]) (AddScript.clone E SOURCE_REPO LESSON_PATH t))
      = Some t3 ∧
    t' = <[LESSON_PATH ++ ["LESSON_INFO.md"] :=
             File (AddScript.lesson_info FOLDER_NAME LESSON_NUM SOURCE_REPO (utc_date E))]> t3.
Proof.
  cbn zeta. unfold AddScript.add_lesson.
  destruct (Fs.is_dir t _) eqn:Hdir; [by intros [= _ ?]|].
  destruct (Fs.mkdir_p _ _) as [t3|] eqn:Hmk; [|by intros [= _ ?]].
  destruct (Fs.is_dir t3 _); [by intros [= _ ?]|].
  intros [= <-]. by exists t3.
Qed.

(** The directories a run of [add-lesson.sh] that exits with 0 leaves:
    the lesson directory, those above it and [.custom-changes]. *)
Lemma add_lesson_dirs (E : Env) (SOURCE_REPO LESSON_NUM LESSON_NAME : string)
    (more : list string) (t t' : tree) (p : path) :
  let FOLDER_NAME := "lesson" +:+ LESSON_NUM +:+ "_" +:+ LESSON_NAME in
  let LESSON_PATH := ["lessons"; FOLDER_NAME] in
  AddScript.add_lesson E (SOURCE_REPO :: LESSON_NUM :: LESSON_NAME :: more) t = (t', true) →
  p `prefix_of` LESSON_PATH ++ [".custom-changes"] → p ≠ [] →
  Fs.is_dir t' p = true.
Proof.
  intros FOLDER_NAME LESSON_PATH Hrun Hp Hne.
  apply add_lesson_steps in Hrun as (t3 & Hdir & Hmk & ->).
  fold FOLDER_NAME LESSON_PATH in Hdir, Hmk |- *.
  unfold Fs.is_dir. rewrite lookup_insert_ne.
  - rewrite (mkdir_p_lookup _ _ _ _ Hmk). by rewrite decide_True.
  - intros <-. destruct Hp as [k Hk]. rewrite <- app_assoc in Hk. apply app_inv_head in Hk.
    discriminate.
Qed.

(** X18.  A run of [add-lesson.sh] that exits with 0 was started where
    the lesson directory was not there, and leaves it with its
    [.custom-changes] directory, without the [.git] of the clone, and
    with a [LESSON_INFO.md] that holds the folder, the number, the
    address and, twice, the date of the run. *)
Theorem add_lesson_success (E : Env) (SOURCE_REPO LESSON_NUM LESSON_NAME : string)
    (more : list string) (t t' : tree) :
  let FOLDER_NAME := "lesson" +:+ LESSON_NUM +:+ "_" +:+ LESSON_NAME in
  let LESSON_PATH := ["lessons"; FOLDER_NAME] in
  AddScript.add_lesson E (SOURCE_REPO :: LESSON_NUM :: LESSON_NAME :: more) t = (t', true) →
  Fs.is_dir t LESSON_PATH = false ∧
  Fs.is_dir t' ["lessons"] = true ∧
  Fs.is_dir t' LESSON_PATH = true ∧
  Fs.is_dir t' (LESSON_PATH ++ [".custom-changes"]) = true ∧
  t' !! (LESSON_PATH ++ ["LESSON_INFO.md"]) =
    Some (File (AddScript.info_text FOLDER_NAME LESSON_NUM SOURCE_REPO
                  (utc_date E) (utc_date E))) ∧
  ∀ r, t' !! (LESSON_PATH ++ ".git" :: r) = None.
Proof.
  intros FOLDER_NAME LESSON_PATH Hrun.
  pose proof (add_lesson_dirs E SOURCE_REPO LESSON_NUM LESSON_NAME more t t') as Hdirs.
  cbn zeta in Hdirs. fold FOLDER_NAME LESSON_PATH in Hdirs.
  apply add_lesson_steps in Hrun as Hsteps. destruct Hsteps as (t3 & Hdir & Hmk & Ht').
  fold FOLDER_NAME LESSON_PATH in Hdir, Hmk, Ht'.
  split_and!; [done| | | | |].
  - apply Hdirs; [done| |done]. by exists [FOLDER_NAME; ".custom-changes"].
  - apply Hdirs; [done| |done]. by apply prefix_app_r.
  - apply Hdirs; done.
  - subst t'. by rewrite lookup_insert_eq.
  - intros r. subst t'. rewrite lookup_insert_ne.
    2:{ intros Heq. apply app_inv_head in Heq. discriminate. }
    rewrite (mkdir_p_lookup _ _ _ _ Hmk). rewrite decide_False.
    2:{ intros [[k Hk] _]. rewrite <- !app_assoc in Hk. apply app_inv_head in Hk. discriminate. }
    rewrite rm_rf_lookup. rewrite decide_True; [done|].
    exists r. by rewrite <- app_assoc.
Qed.

Lemma add_lesson_outside (E : Env) (SOURCE_REPO LESSON_NUM LESSON_NAME : string)
    (more : list string) (t : tree) (p : path) :
  let FOLDER_NAME := "lesson" +:+ LESSON_NUM +:+ "_" +:+ LESSON_NAME in
  ¬ ["lessons"; FOLDER_NAME] `prefix_of` p → p ≠ ["lessons"] →
  (AddScript.add_lesson E (SOURCE_REPO :: LESSON_NUM :: LESSON_NAME :: more) t).1 !! p = t !! p.
Proof.
  intros FOLDER_NAME Hout Hp. unfold AddScript.add_lesson. fold FOLDER_NAME.
  set (LESSON_PATH := ["lessons"; FOLDER_NAME]) in *.
  destruct (Fs.is_dir t LESSON_PATH); [done|].
  assert (¬ p `prefix_of` LESSON_PATH ∨ p = []) as Hnp.
  { destruct p as [|a [|b p]]; [by right|left..].
    - intros Hpre. apply prefix_cons_inv_1 in Hpre. congruence.
    - intros Hpre. apply Hout. apply prefix_length in Hpre as Hlen. cbn in Hlen.
      destruct p; [|cbn in Hlen; lia]. destruct Hpre as [k Hk].
      destruct k; [|discriminate]. rewrite app_nil_r in Hk. by rewrite Hk. }
  assert (Fs.rm_rf (LESSON_PATH ++ [".git"]) (AddScript.clone E SOURCE_REPO LESSON_PATH t) !! p
          = t !! p) as H2.
  { rewrite rm_rf_lookup. rewrite decide_False.
    2:{ intros Hpre. by apply Hout, (prefix_of_app_trans _ [".git"]). }
    destruct Hnp as [Hnp| ->]; [by apply clone_lookup_outside|].
    unfold AddScript.clone. destruct (remote E SOURCE_REPO) as [files|]; [|done].
    destruct (bool_decide _); [done|].
    destruct (Fs.mkdir_p LESSON_PATH t) as [t1|] eqn:Hmk; [|done].
    rewrite copy_into_lookup_outside by done.
    rewrite (mkdir_p_lookup _ _ _ _ Hmk). rewrite decide_False; [done|]. by intros [_ ?]. }
  destruct (Fs.mkdir_p _ _) as [t3|] eqn:Hmk; [|exact H2].
  assert (t3 !! p = t !! p) as H3.
  { rewrite (mkdir_p_lookup _ _ _ _ Hmk), H2. rewrite decide_False; [done|].
    intros [Hpre Hne]. destruct Hnp as [Hnp| ->]; [|done].
    destruct p as [|a [|b [|c p]]]; [done| | |].
    - apply prefix_cons_inv_1 in Hpre. congruence.
    - apply Hout. exists []. cbn. apply prefix_cons_inv_1 in Hpre as Ha.
      apply prefix_cons_inv_2, prefix_cons_inv_1 in Hpre. by subst.
    - apply Hout. exists (c :: p). cbn. apply prefix_cons_inv_1 in Hpre as Ha.
      apply prefix_cons_inv_2, prefix_cons_inv_1 in Hpre. by subst. }
  destruct (Fs.is_dir t3 _); [exact H3|]. cbn [fst].
  rewrite lookup_insert_ne; [exact H3|]. intros <-. apply Hout. by apply prefix_app_r.
Qed.

Lemma add_lesson_lessons_dir (E : Env) (SOURCE_REPO LESSON_NUM LESSON_NAME : string)
    (more : list string) (t : tree) :
  let t' := (AddScript.add_lesson E (SOURCE_REPO :: LESSON_NUM :: LESSON_NAME :: more) t).1 in
  t' !! ["lessons"] = t !! ["lessons"] ∨ t' !! ["lessons"] = Some Dir.
Proof.
  cbn zeta. unfold AddScript.add_lesson.
  set (LESSON_PATH := ["lessons"; "lesson" +:+ LESSON_NUM +:+ "_" +:+ LESSON_NAME]).
  destruct (Fs.is_dir t LESSON_PATH); [by left|].
  assert (∀ t1, (Fs.rm_rf (LESSON_PATH ++ [".git"]) t1) !! ["lessons"] = t1 !! ["lessons"]) as Hrm.
  { intros t1. rewrite rm_rf_lookup. rewrite decide_False; [done|].
    intros Hpre. apply prefix_length in Hpre. cbn in Hpre. lia. }
  assert (AddScript.clone E SOURCE_REPO LESSON_PATH t !! ["lessons"] = t !! ["lessons"] ∨
          AddScript.clone E SOURCE_REPO LESSON_PATH t !! ["lessons"] = Some Dir) as Hclone.
  { unfold AddScript.clone. destruct (remote E SOURCE_REPO) as [files|]; [|by left].
    destruct (bool_decide _); [by left|].
    destruct (Fs.mkdir_p LESSON_PATH t) as [t1|] eqn:Hmk; [|by left]. right.
    rewrite copy_into_lookup_outside.
    - rewrite (mkdir_p_lookup _ _ _ _ Hmk). rewrite decide_True; [done|].
      split; [|done]. by exists [ "lesson" +:+ LESSON_NUM +:+ "_" +:+ LESSON_NAME ].
    - intros Hpre. apply prefix_length in Hpre. cbn in Hpre. lia. }
  destruct (Fs.mkdir_p _ _) as [t3|] eqn:Hmk; cbn [fst]; [|by rewrite Hrm].
  right. assert (t3 !! ["lessons"] = Some Dir) as H3.
  { rewrite (mkdir_p_lookup _ _ _ _ Hmk). rewrite decide_True; [done|].
    split; [|done]. by exists ["lesson" +:+ LESSON_NUM +:+ "_" +:+ LESSON_NAME; ".custom-changes"]. }
  destruct (Fs.is_dir t3 _); cbn [fst]; [done|]. by rewrite lookup_insert_ne.
Qed.

(** X19.  Whatever its outcome, [add-lesson.sh] changes nothing outside
    the directory of the lesson it is asked to add, apart from making
    the [lessons] directory. *)
Theorem add_lesson_isolated (E : Env) (SOURCE_REPO LESSON_NUM LESSON_NAME : string)
    (more : list string) (t : tree) (p : path) :
  let FOLDER_NAME := "lesson" +:+ LESSON_NUM +:+ "_" +:+ LESSON_NAME in
  let t' := (AddScript.add_lesson E (SOURCE_REPO :: LESSON_NUM :: LESSON_NAME :: more) t).1 in
  ¬ ["lessons"; FOLDER_NAME] `prefix_of` p →
  t' !! p = t !! p ∨ (p = ["lessons"] ∧ t' !! p = Some Dir).
Proof.
  intros FOLDER_NAME t' Hout. destruct (decide (p = ["lessons"])) as [->|Hp].
  - destruct (add_lesson_lessons_dir E SOURCE_REPO LESSON_NUM LESSON_NAME more t) as [?|?];
      [by left|by right].
  - left. by apply add_lesson_outside.
Qed.

Section Content.
Variables (E : Env) (SOURCE_REPO LESSON_NUM LESSON_NAME : string) (more : list string)
          (t : tree).
Let FOLDER_NAME := "lesson" +:+ LESSON_NUM +:+ "_" +:+ LESSON_NAME.
Let LESSON_PATH : path := ["lessons"; FOLDER_NAME].
Let upstream : tree := default ∅ (remote E SOURCE_REPO).

(** Nothing is at the place of the lesson or below it. *)
Hypothesis vacant : ∀ r, t !! (LESSON_PATH ++ r) = None.


End Content.
End AddLesson.

(* ===================================================================== *)
(** * The catalog [add_all_lessons] writes                              *)
(* ===================================================================== *)

Section SetupFacts.






End SetupFacts.

(* ===================================================================== *)
(** * The text of [LESSON_INFO.md]                                      *)
(* ===================================================================== *)

Section TextFacts.

Lemma append_String (a : ascii) (s r : string) : String a s +:+ r = String a (s +:+ r).
Proof. done. Qed.

Lemma string_prefix_cons (a b : ascii) (s1 s2 : string) :
  String.prefix (String a s1) (String b s2)
  = if ascii_dec a b then String.prefix s1 s2 else false.
Proof. done. Qed.

Lemma string_prefix_empty (s : string) : String.prefix EmptyString s = true.
Proof. by destruct s. Qed.

Lemma contains_cons (needle : string) (a : ascii) (s : string) :
  Text.contains needle (String a s)
  = String.prefix needle (String a s) || Text.contains needle s.
Proof. done. Qed.

Lemma contains_newline_cons (a : ascii) (s : string) :
  Text.contains (String Text.newline EmptyString) (String a s)
  = Text.ascii_eqb a Text.newline || Text.contains (String Text.newline EmptyString) s.
Proof.
  rewrite contains_cons, string_prefix_cons, string_prefix_empty. unfold Text.ascii_eqb.
  destruct (ascii_dec Text.newline a) as [<-|Hne].
  - by rewrite bool_decide_eq_true_2.
  - by rewrite bool_decide_eq_false_2 by congruence.
Qed.

Lemma split_on_cons (c a : ascii) (r : string) :
  Text.split_on c (String a r) =
    if Text.ascii_eqb a c then EmptyString :: Text.split_on c r
    else match Text.split_on c r with
         | h :: t => String a h :: t
         | [] => [String a EmptyString]
         end.
Proof. done. Qed.

Lemma split_on_line (s rest : string) :
  absent (String Text.newline EmptyString) s →
  Text.split_on Text.newline (s +:+ String Text.newline rest)
    = s :: Text.split_on Text.newline rest.
Proof.
  induction s as [|a s IH]; intros Hs.
  - change (EmptyString +:+ String Text.newline rest) with (String Text.newline rest).
    rewrite split_on_cons. unfold Text.ascii_eqb. by rewrite bool_decide_eq_true_2.
  - rewrite contains_newline_cons in Hs. apply orb_false_elim in Hs as [Ha Hs].
    rewrite append_String, split_on_cons, Ha, (IH Hs). done.
Qed.

Lemma split_on_last (s : string) :
  absent (String Text.newline EmptyString) s →
  Text.split_on Text.newline s = [s].
Proof.
  induction s as [|a s IH]; intros Hs; [done|].
  rewrite contains_newline_cons in Hs. apply orb_false_elim in Hs as [Ha Hs].
  by rewrite split_on_cons, Ha, (IH Hs).
Qed.

(** Splitting a text made of lines gives the lines back. *)
Lemma lines_unlines (ls : list string) :
  ls ≠ [] →
  Forall (λ s, absent (String Text.newline EmptyString) s) ls →
  Text.lines (Text.unlines ls) = ls.
Proof.
  unfold Text.lines, Text.unlines, Text.join.
  induction ls as [|s ls IH]; intros Hne Hall; [done|].
  inversion Hall as [|?? Hs Hls]; subst.
  destruct ls as [|s' ls].
  - by apply split_on_last.
  - change (String.concat (String Text.newline EmptyString) (s :: s' :: ls))
      with (s +:+ String Text.newline
              (String.concat (String Text.newline EmptyString) (s' :: ls))).
    rewrite split_on_line by done. f_equal. by apply IH.
Qed.

Lemma contains_tail (needle : string) (a : ascii) (s : string) :
  absent needle (String a s) → absent needle s.
Proof. rewrite contains_cons. by intros [_ ?]%orb_false_elim. Qed.

Lemma after_last_cons (sep : string) (a : ascii) (r : string) :
  Text.after_last sep (String a r) =
    match Text.after_last sep r with
    | Some t => Some t
    | None =>
        if String.prefix sep (String a r)
        then Some (Text.drop_chars (String.length sep) (String a r))
        else None
    end.
Proof. done. Qed.

Lemma after_last_absent (sep s : string) :
  absent sep s → Text.after_last sep s = None.
Proof.
  induction s as [|a s IH]; intros Hs; [done|].
  rewrite after_last_cons, (IH (contains_tail _ _ _ Hs)).
  rewrite contains_cons in Hs. apply orb_false_elim in Hs as [Hp _]. by rewrite Hp.
Qed.

Lemma sed_drop_stars_cons (a b : ascii) (r : string) :
  Text.sed_drop_stars (String a (String b r)) =
    if Text.ascii_eqb a Text.star && Text.ascii_eqb b Text.star
    then Text.sed_drop_stars r
    else String a (Text.sed_drop_stars (String b r)).
Proof. done. Qed.

Lemma sed_drop_stars_absent (s : string) :
  absent "**" s → Text.sed_drop_stars s = s.
Proof.
  induction s as [|a s IH]; intros Hs; [done|].
  destruct s as [|b s]; [done|].
  rewrite sed_drop_stars_cons.
  destruct (Text.ascii_eqb a Text.star && Text.ascii_eqb b Text.star) eqn:Hab.
  - apply andb_prop in Hab as [Ha Hb]. unfold Text.ascii_eqb in *.
    apply bool_decide_eq_true_1 in Ha as ->. apply bool_decide_eq_true_1 in Hb as ->.
    rewrite contains_cons in Hs. apply orb_false_elim in Hs as [Hp _].
    change "**" with (String Text.star (String Text.star EmptyString)) in Hp.
    rewrite !string_prefix_cons, string_prefix_empty in Hp.
    by destruct (ascii_dec Text.star Text.star).
  - f_equal. apply IH. by eapply contains_tail.
Qed.

Lemma rstrip_cons (c a : ascii) (r : string) :
  Text.rstrip c (String a r) =
    match Text.rstrip c r with
    | EmptyString => if Text.ascii_eqb a c then EmptyString else String a EmptyString
    | r' => String a r'
    end.
Proof. done. Qed.

Lemma rstrip_absent (s : string) :
  absent (String Text.newline EmptyString) s → Text.rstrip Text.newline s = s.
Proof.
  induction s as [|a s IH]; intros Hs; [done|].
  rewrite contains_newline_cons in Hs. apply orb_false_elim in Hs as [Ha Hs].
  rewrite rstrip_cons, (IH Hs), Ha. by destruct s.
Qed.

Lemma string_prefix_cons_eq (a : ascii) (s1 s2 : string) :
  String.prefix (String a s1) (String a s2) = String.prefix s1 s2.
Proof. rewrite string_prefix_cons. by destruct (ascii_dec a a). Qed.

Lemma string_prefix_cons_ne (a b : ascii) (s1 s2 : string) :
  a ≠ b → String.prefix (String a s1) (String b s2) = false.
Proof. intros Hne. rewrite string_prefix_cons. by destruct (ascii_dec a b). Qed.

Lemma append_empty (s : string) : EmptyString +:+ s = s.
Proof. done. Qed.

(** Evaluate [String.prefix] on a literal needle against a text whose
    first characters are literal. *)
Ltac eval_prefix :=
  repeat first
    [ rewrite string_prefix_empty
    | rewrite string_prefix_cons_eq
    | rewrite string_prefix_cons_ne by discriminate ].

(** Evaluate [Text.contains] on a literal needle against a literal text
    followed by a text without the needle. *)
Ltac eval_contains Habs :=
  rewrite ?append_String, ?append_empty;
  repeat (rewrite contains_cons; eval_prefix; rewrite ?orb_false_l, ?orb_true_l);
  first [ reflexivity | exact Habs | rewrite Habs; reflexivity ].

Lemma Forall_cons_1_4 {A} (P : A → Prop) (a b c d : A) :
  Forall P [a; b; c; d] → P a ∧ P b ∧ P c ∧ P d ∧ True.
Proof. intros Hall. by repeat (apply Forall_cons_1 in Hall as [? Hall]). Qed.

Lemma Forall_cons_1_5 {A} (P : A → Prop) (a b c d e : A) :
  Forall P [a; b; c; d; e] → P a ∧ P b ∧ P c ∧ P d ∧ P e ∧ True.
Proof. intros Hall. by repeat (apply Forall_cons_1 in Hall as [? Hall]). Qed.

Lemma absent_newline_append (lit s : string) :
  absent nl lit → absent nl s → absent nl (lit +:+ s).
Proof.
  induction lit as [|a lit IH]; intros Hlit Hs; [done|].
  rewrite append_String, contains_newline_cons in *.
  apply orb_false_elim in Hlit as [-> Hlit]. by apply IH.
Qed.

(** X16.  From a [LESSON_INFO.md] in the layout [add-lesson.sh] writes,
    [sync-lesson.sh] reads back the address the lesson was added with,
    whatever the two dates are, as long as the values written have no
    line break, the address has neither a colon followed by a space nor
    two stars, and the other values do not hold the words Source
    Repository. *)
Theorem discover_source_info_text
    (FOLDER_NAME LESSON_NUM SOURCE_REPO ADDED SYNCED : string) :
  Forall (λ s, absent nl s) [FOLDER_NAME; LESSON_NUM; SOURCE_REPO; ADDED; SYNCED] →
  Forall (λ s, absent "Source Repository" s) [FOLDER_NAME; LESSON_NUM; ADDED; SYNCED] →
  absent ": " SOURCE_REPO →
  absent "**" SOURCE_REPO →
  SyncScript.discover_source
    (Some (File (AddScript.info_text FOLDER_NAME LESSON_NUM SOURCE_REPO ADDED SYNCED)))
  = SOURCE_REPO.
Proof.
  intros (HnF & HnN & HnR & HnA & HnD & _)%Forall_cons_1_5
         (HsF & HsN & HsA & HsD & _)%Forall_cons_1_4 Hcolon Hstars.
  unfold SyncScript.discover_source, AddScript.info_text.
  rewrite lines_unlines; [|done|].
  2:{ repeat (apply Forall_cons_2; [first [by vm_compute | by apply absent_newline_append]|]).
      apply Forall_nil_2. }
  repeat first
    [ rewrite filter_nil
    | rewrite filter_cons_True by (eval_contains HsF)
    | rewrite filter_cons_False by
        (apply not_true_iff_false;
         first [ by vm_compute | eval_contains HsF | eval_contains HsN
               | eval_contains HsA | eval_contains HsD ]) ].
  cbn [map]. unfold Text.unlines, Text.join. cbn [String.concat].
  unfold Text.sed_strip_label.
  rewrite ?append_String, ?append_empty. rewrite !after_last_cons.
  rewrite (after_last_absent _ _ Hcolon).
  change ": " with (String ":"%char (String " "%char EmptyString)).
  eval_prefix. cbn [String.length Text.drop_chars from_option id].
  lazy beta iota.
  rewrite (sed_drop_stars_absent _ Hstars). by apply rstrip_absent.
Qed.

Lemma sed_replace_from_cons (key repl : string) (a : ascii) (r : string) :
  Text.sed_replace_from key repl (String a r) =
    if String.prefix key (String a r) then repl
    else String a (Text.sed_replace_from key repl r).
Proof. done. Qed.

Lemma sed_replace_from_absent (key repl line : string) :
  key ≠ EmptyString → absent key line → Text.sed_replace_from key repl line = line.
Proof.
  intros Hkey. induction line as [|a line IH]; intros Habs.
  - by destruct key.
  - rewrite sed_replace_from_cons.
    pose proof (contains_tail _ _ _ Habs) as Htail.
    rewrite contains_cons in Habs. apply orb_false_elim in Habs as [-> _].
    by rewrite IH.
Qed.

Lemma cons_eq {A} (x y : A) (l k : list A) : x = y → l = k → x :: l = y :: k.
Proof. by intros -> ->. Qed.

(** X17.  On a [LESSON_INFO.md] in the layout [add-lesson.sh] writes,
    the sed command of [sync-lesson.sh] replaces the date of the last
    sync and changes nothing else, as long as the values written have
    no line break and those before the date do not hold the words Last
    Synced. *)
Theorem stamp_info_text (FOLDER_NAME LESSON_NUM SOURCE_REPO ADDED SYNCED day : string) :
  Forall (λ s, absent nl s) [FOLDER_NAME; LESSON_NUM; SOURCE_REPO; ADDED; SYNCED] →
  Forall (λ s, absent "Last Synced" s) [FOLDER_NAME; LESSON_NUM; SOURCE_REPO; ADDED] →
  Text.unlines
    (map (Text.sed_replace_from "Last Synced" ("Last Synced**: " +:+ day))
         (Text.lines (AddScript.info_text FOLDER_NAME LESSON_NUM SOURCE_REPO ADDED SYNCED)))
  = AddScript.info_text FOLDER_NAME LESSON_NUM SOURCE_REPO ADDED day.
Proof.
  intros (HnF & HnN & HnR & HnA & HnD & _)%Forall_cons_1_5
         (HsF & HsN & HsR & HsA & _)%Forall_cons_1_4.
  unfold AddScript.info_text.
  rewrite lines_unlines; [|done|].
  2:{ repeat (apply Forall_cons_2; [first [by vm_compute | by apply absent_newline_append]|]).
      apply Forall_nil_2. }
  cbn [map]. f_equal.
  repeat (apply cons_eq;
    [ first
        [ apply sed_replace_from_absent;
          [ done
          | first [ by vm_compute | eval_contains HsF | eval_contains HsN
                  | eval_contains HsR | eval_contains HsA ] ]
        | rewrite ?append_String, ?append_empty;
          repeat (rewrite sed_replace_from_cons; eval_prefix; lazy beta iota);
          reflexivity ]
    | ]).
  done.
Qed.

End TextFacts.

(* ===================================================================== *)
(** * Sample runs                                                       *)
(* ===================================================================== *)

Section SampleRuns.
Import Example.

Lemma glob_plain (pattern : string) :
  plain_chars pattern = true → ∀ s, glob pattern s = bool_decide (s = pattern).
Proof.
  induction pattern as [|c rest IH]; intros Hplain s; [done|].
  cbn [plain_chars] in Hplain.
  apply andb_prop in Hplain as [Hc Hrest]. apply andb_prop in Hc as [Hstar Hq].
  apply negb_true_iff in Hstar, Hq. cbn [glob]. rewrite Hstar, Hq.
  destruct s as [|a s].
  - by rewrite bool_decide_eq_false_2.
  - rewrite IH by done. unfold Text.ascii_eqb.
    destruct (decide (a = c)) as [->|Hne].
    + rewrite bool_decide_eq_true_2 by done. cbn.
      apply bool_decide_ext. split; [by intros ->|by intros [= ->]].
    + rewrite bool_decide_eq_false_2 by done. cbn.
      symmetry. apply bool_decide_eq_false_2. by intros [= ? ?].
Qed.

(** The concrete matcher takes a pattern without wildcards as a name. *)
Lemma glob_match_literal (lit : string) :
  plain_chars lit = true → literal_pattern (H:=glob_match) lit.
Proof. intros Hplain n. by apply glob_plain. Qed.

(** Nothing is below [d] in a tree none of whose keys starts with [d]. *)
Lemma lookup_below_None (t : tree) (d : path) :
  forallb (λ kv : path * node, negb (bool_decide (d `prefix_of` kv.1))) (map_to_list t) = true →
  ∀ r, t !! (d ++ r) = None.
Proof.
  intros Hall r. destruct (t !! (d ++ r)) as [x|] eqn:Hx; [|done].
  apply elem_of_map_to_list in Hx. rewrite forallb_forall in Hall.
  apply list_elem_of_In, Hall, negb_true_iff, bool_decide_eq_false in Hx.
  destruct Hx. by apply prefix_app_r.
Qed.


(** The example catalog is in the state [save] left it in. *)
Lemma sync_all_lessons_catalog_file_witness :
  w_catalog (sync_all_lessons (H:=glob_match) (λ _, online) world).2
  = save (w_metadata (sync_all_lessons (H:=glob_match) (λ _, online) world).2).
Proof.
  apply (sync_all_lessons_catalog_file (H:=glob_match) (λ _, online) world).
  reflexivity.
Defined.

(** Neither lesson of the example catalog has a directory in the tree
    the setup leaves before lessons are added. *)
Lemma sync_all_lessons_all_missing_witness :
  sync_all_lessons (H:=glob_match) (λ _, online) Sample.bare_world
  = ((0, 2), Sample.bare_world).
Proof.
  apply (sync_all_lessons_all_missing (H:=glob_match) (λ _, online) Sample.bare_world).
  repeat (constructor; [by vm_compute|]). constructor.
Defined.

Lemma sync_all_lessons_script_missing_witness :
  sync_all_lessons (H:=glob_match) (λ _, online) Sample.no_script_world
  = ((0, 2), Sample.no_script_world).
Proof.
  apply (sync_all_lessons_script_missing (H:=glob_match) (λ _, online) Sample.no_script_world).
  by vm_compute.
Defined.



(** The file [solutions.ipynb] the upstream repository has gained is in the
    lesson directory after the sync. *)
Lemma sync_installs_upstream_witness :
  (SyncScript.sync_single_lesson (H:=glob_match) online (folder lesson) working_tree).1
    !! (["lessons"; folder lesson] ++ ["solutions.ipynb"])
  = Some (File "solutions").
Proof.
  apply (sync_installs_upstream (H:=glob_match) online (folder lesson) working_tree).
  - intros r _. apply lookup_below_None. by vm_compute.
  - intros r. apply (lookup_below_None _ [".custom-changes"]). by vm_compute.
  - by apply glob_match_literal.
  - by apply glob_match_literal.
  - apply (bool_decide_unpack _). by vm_compute.
  - by vm_compute.
  - vm_cast_no_check (eq_refl (SyncScript.sync_single_lesson (H:=glob_match) online
                                 (folder lesson) working_tree)).
Defined.



(** The sync script reads back the address the info file of the example
    lesson was written with. *)
Lemma discover_source_info_text_witness :
  SyncScript.discover_source
    (Some (File (AddScript.info_text (folder lesson) "1_1" url "2026-10-01" "2026-10-01")))
  = url.
Proof.
  apply (discover_source_info_text (folder lesson) "1_1" url "2026-10-01" "2026-10-01").
  - repeat (constructor; [by vm_compute|]). constructor.
  - repeat (constructor; [by vm_compute|]). constructor.
  - by vm_compute.
  - by vm_compute.
Defined.

Lemma stamp_info_text_witness :
  Text.unlines
    (map (Text.sed_replace_from "Last Synced" ("Last Synced**: " +:+ "2026-11-04"))
         (Text.lines (AddScript.info_text (folder lesson) "1_1" url "2026-10-01" "2026-10-01")))
  = AddScript.info_text (folder lesson) "1_1" url "2026-10-01" "2026-11-04".
Proof.
  apply (stamp_info_text (folder lesson) "1_1" url "2026-10-01" "2026-10-01" "2026-11-04").
  - repeat (constructor; [by vm_compute|]). constructor.
  - repeat (constructor; [by vm_compute|]). constructor.
Defined.

(** The second lesson of the table added to the repository the setup
    has prepared. *)
Lemma add_lesson_success_witness :
  let t' := (AddScript.add_lesson Sample.net [Sample.url2; "1_2"; "intro_database"]
               Sample.setup_tree).1 in
  Fs.is_dir Sample.setup_tree ["lessons"; "lesson1_2_intro_database"] = false ∧
  Fs.is_dir t' ["lessons"] = true ∧
  Fs.is_dir t' ["lessons"; "lesson1_2_intro_database"] = true ∧
  Fs.is_dir t' ["lessons"; "lesson1_2_intro_database"; ".custom-changes"] = true ∧
  t' !! ["lessons"; "lesson1_2_intro_database"; "LESSON_INFO.md"] =
    Some (File (AddScript.info_text "lesson1_2_intro_database" "1_2" Sample.url2
                  "2026-11-04" "2026-11-04")) ∧
  ∀ r, t' !! (["lessons"; "lesson1_2_intro_database"] ++ ".git" :: r) = None.
Proof.
  apply (add_lesson_success Sample.net Sample.url2 "1_2" "intro_database" []
           Sample.setup_tree).
  vm_cast_no_check (eq_refl (AddScript.add_lesson Sample.net
                               [Sample.url2; "1_2"; "intro_database"] Sample.setup_tree)).
Defined.

Lemma add_lesson_isolated_witness :
  let t' := (AddScript.add_lesson Sample.net [Sample.url2; "1_2"; "intro_database"]
               working_tree).1 in
  t' !! (root ++ ["intro.local.ipynb"]) = working_tree !! (root ++ ["intro.local.ipynb"]) ∨
  (root ++ ["intro.local.ipynb"] = ["lessons"] ∧
   t' !! (root ++ ["intro.local.ipynb"]) = Some Dir).
Proof.
  apply (add_lesson_isolated Sample.net Sample.url2 "1_2" "intro_database" []
           working_tree (root ++ ["intro.local.ipynb"])).
  intros [k Hk]. discriminate Hk.
Defined.


End SampleRuns.
